(** * Lighthouse batch runner: statistics aggregator and run controller

    A shallow embedding of [src/results-parser.ts] and of the run loop of
    [src/index.ts].

    - JavaScript numbers are IEEE-754 binary64 values: Rocq's primitive
      [float].  [undefined] is [None].
    - [Array.prototype.sort] works in place; every function that calls it
      returns the array it leaves behind next to its result, and the callers
      thread that array on, as the source shares one array object.
    - A [Map] is an association list in insertion order; the plain object
      that [parseResults] fills is a [gmap] over its keys. *)

From stdpp Require Import gmap strings list sorting.
From Stdlib Require Import ZArith Lia Ascii Floats DecimalString.
From Stdlib Require Import Sorted Permutation OrderedTypeEx.
Import ListNotations.

Local Open Scope Z_scope.

(** ** The JavaScript run-time operations the sources rely on *)

Module JS.

(** [ToNumber] on a number or [undefined]. *)
Definition ToNumber (v : option float) : float :=
  match v with
  | Some x => x
  | None => nan
  end.

(** [ToBoolean] on a number or [undefined]: [undefined], [+0], [-0] and
    [NaN] are falsy. *)
Definition ToBoolean (v : option float) : bool :=
  match v with
  | Some x => negb (is_nan x || is_zero x)
  | None => false
  end.

(** [a + b] where an operand may be [undefined]. *)
Definition add (a b : option float) : float :=
  (ToNumber a + ToNumber b)%float.

(** An integer below 2^53 as a number. *)
Definition of_Z (z : Z) : float :=
  if z <? 0 then (- of_uint63 (Uint63.of_Z (- z)))%float
  else of_uint63 (Uint63.of_Z z).

(** [arr.length] as a number. *)
Definition length_number {A} (l : list A) : float :=
  of_Z (Z.of_nat (length l)).

(** [Math.ceil]. A binary64 value with a non-negative exponent is an
    integer already. *)
Definition Math_ceil (x : float) : float :=
  match Prim2SF x with
  | S754_finite s m e =>
      if 0 <=? e then x
      else
        let d := 2 ^ (- e) in
        let q := Z.pos m / d in
        let r := Z.pos m mod d in
        if s then (- of_Z q)%float
        else of_Z (if r =? 0 then q else q + 1)
  | _ => x
  end.

(** The array index a number denotes as a property key, when it is one. *)
Definition to_index (i : float) : option Z :=
  match Prim2SF i with
  | S754_zero _ => Some 0
  | S754_finite false m e =>
      if 0 <=? e then Some (Z.pos m * 2 ^ e)
      else if Z.pos m mod 2 ^ (- e) =? 0 then Some (Z.pos m / 2 ^ (- e))
      else None
  | _ => None
  end.

(** [arr[i]] for an integer [i]: [undefined] outside the array. *)
Definition get {A} (l : list A) (i : Z) : option A :=
  if (0 <=? i) && (i <? Z.of_nat (length l)) then nth_error l (Z.to_nat i)
  else None.

(** [arr[x]] for a number [x]. *)
Definition get_number {A} (l : list A) (x : float) : option A :=
  match to_index x with
  | Some i => get l i
  | None => None
  end.

(** *** [Number::toString] (radix 10)

    For a finite positive [x = m * 2^e] the digits are those of the integer
    [s] with the fewest digits such that [s * 10^q] rounds to [x]; among
    several, the one closest to [x], the even one on a tie. *)

Definition cdiv (a b : Z) : Z := - ((- a) / b).

(** The closest admissible [s] at scale [10^q], if there is one. All
    quantities are scaled by [N / D] so that they are integers; the rounding
    interval of [x] is [(L, H)] in units of [2^(e-2)], closed when [m] is
    even. *)
Definition digits_at (m : positive) (e q : Z) : option Z :=
  let X := 4 * Z.pos m in
  let L := if Pos.eqb m (2 ^ 52) && (-1074 <? e) then X - 1 else X - 2 in
  let H := X + 2 in
  let a := e - 2 in
  let N := 2 ^ Z.max a 0 * 10 ^ Z.max (- q) 0 in
  let D := 2 ^ Z.max (- a) 0 * 10 ^ Z.max q 0 in
  let closed := Z.even (Z.pos m) in
  let s_lo := if closed then cdiv (L * N) D else (L * N) / D + 1 in
  let s_hi := if closed then (H * N) / D else cdiv (H * N) D - 1 in
  if s_lo <=? s_hi then
    let f := (X * N) / D in
    let r := (X * N) mod D in
    let c := if 2 * r <? D then f
             else if D <? 2 * r then f + 1
             else if Z.even f then f else f + 1 in
    Some (Z.max s_lo (Z.min c s_hi))
  else None.

(** The largest scale that admits digits, searched downwards from [q]. *)
Fixpoint shortest (fuel : nat) (m : positive) (e q : Z) : option (Z * Z) :=
  match fuel with
  | O => None
  | S fuel' =>
      match digits_at m e q with
      | Some s => Some (s, q)
      | None => shortest fuel' m e (q - 1)
      end
  end.

Definition string_of_Z (z : Z) : string :=
  NilZero.string_of_uint (N.to_uint (Z.to_N z)).

Fixpoint zeros (n : nat) : string :=
  match n with
  | O => EmptyString
  | S n' => String "0"%char (zeros n')
  end.

(** Steps 7 to 11 of [Number::toString]: [digits] are the [k] digits of
    [s], and the value is [s * 10^(n - k)]. *)
Definition format_digits (digits : string) (n : Z) : string :=
  let k := Z.of_nat (String.length digits) in
  if (k <=? n) && (n <=? 21) then
    digits +:+ zeros (Z.to_nat (n - k))
  else if (0 <? n) && (n <=? 21) then
    String.substring 0 (Z.to_nat n) digits +:+ "." +:+
    String.substring (Z.to_nat n) (Z.to_nat (k - n)) digits
  else if (-6 <? n) && (n <=? 0) then
    "0." +:+ zeros (Z.to_nat (- n)) +:+ digits
  else
    let sign := if n - 1 <? 0 then "-" else "+" in
    let expo := string_of_Z (Z.abs (n - 1)) in
    if k =? 1 then digits +:+ "e" +:+ sign +:+ expo
    else
      String.substring 0 1 digits +:+ "." +:+
      String.substring 1 (Z.to_nat (k - 1)) digits +:+ "e" +:+ sign +:+ expo.

Definition toString_finite (m : positive) (e : Z) : string :=
  let q0 := (Z.log2 (Z.pos m) + e + 2) * 30103 / 100000 + 1 in
  match shortest (Z.to_nat (q0 + 1076)) m e q0 with
  | Some (s, q) =>
      let digits := string_of_Z s in
      format_digits digits (Z.of_nat (String.length digits) + q)
  | None => "NaN"
  end.

Definition Number_toString (x : float) : string :=
  match Prim2SF x with
  | S754_nan => "NaN"
  | S754_zero _ => "0"
  | S754_infinity s => if s then "-Infinity" else "Infinity"
  | S754_finite s m e =>
      if s then "-" +:+ toString_finite m e else toString_finite m e
  end.

(** *** [Array.prototype.sort]

    The sort is stable, so with a consistent comparator its result is the
    one an insertion sort gives. [cmp a b] is the number the comparator
    returns: negative when [a] goes first. *)

Section Sort.
Context {A : Type} (cmp : A -> A -> Z).

Fixpoint insert (x : A) (l : list A) : list A :=
  match l with
  | [] => [x]
  | y :: l' => if cmp x y <=? 0 then x :: y :: l' else y :: insert x l'
  end.

Fixpoint sort (l : list A) : list A :=
  match l with
  | [] => []
  | x :: l' => insert x (sort l')
  end.

End Sort.

Definition Z_of_comparison (c : comparison) : Z :=
  match c with
  | Lt => -1
  | Eq => 0
  | Gt => 1
  end.

(** Comparison of two strings by their code units. *)
Definition code_unit_compare (a b : string) : Z :=
  Z_of_comparison (String.compare a b).

(** The comparator [sort()] uses when none is given: the elements are
    compared as strings. *)
Definition default_compare (x y : float) : Z :=
  code_unit_compare (Number_toString x) (Number_toString y).

(** [arr.join(sep)] on an array of numbers and [undefined]s. *)
Definition join (sep : string) (l : list (option float)) : string :=
  String.concat sep
    (map (fun v => match v with
                   | Some x => Number_toString x
                   | None => EmptyString
                   end) l).

(** *** [Map]: keys in insertion order *)

Module Map.
Section Ops.
Context {V : Type}.

Fixpoint get (m : list (string * V)) (k : string) : option V :=
  match m with
  | [] => None
  | (k', v) :: m' => if String.eqb k' k then Some v else get m' k
  end.

Definition has (m : list (string * V)) (k : string) : bool :=
  match get m k with
  | Some _ => true
  | None => false
  end.

(** [set] keeps the place of a key that is present and appends a new one. *)
Fixpoint set (m : list (string * V)) (k : string) (v : V)
  : list (string * V) :=
  match m with
  | [] => [(k, v)]
  | (k', v') :: m' =>
      if String.eqb k' k then (k', v) :: m' else (k', v') :: set m' k v
  end.

End Ops.
End Map.

(** [obj[k] = v] on an object created by a literal: the key [__proto__]
    reaches the inherited setter and creates no property. *)
Definition set_property {V} (o : gmap string V) (k : string) (v : V)
  : gmap string V :=
  if decide (k = "__proto__") then o else <[k := v]> o.

(** [Math.min(...l)] and [Math.max(...l)]. *)
Definition is_neg_zero (x : float) : bool := is_zero x && get_sign x.
Definition is_pos_zero (x : float) : bool := is_zero x && negb (get_sign x).

Definition Math_min (l : list float) : float :=
  fold_left
    (fun lowest x =>
       if is_nan lowest || is_nan x then nan
       else if is_neg_zero x && is_pos_zero lowest then x
       else if (x <? lowest)%float then x
       else lowest)
    l infinity.

Definition Math_max (l : list float) : float :=
  fold_left
    (fun highest x =>
       if is_nan highest || is_nan x then nan
       else if is_pos_zero x && is_neg_zero highest then x
       else if (highest <? x)%float then x
       else highest)
    l neg_infinity.

(** [Math.pow(b, 2)]. *)
Definition Math_pow2 (b : float) : float := (b * b)%float.

End JS.

Local Open Scope float_scope.

(** ** [src/results-parser.ts] *)

Module ResultsParser.

(** The part of a Lighthouse audit result the parser reads. *)
Record AuditResult := { numericValue : option float }.

(** The part of a Lighthouse result (LHR) the sources read. [audits] lists
    the entries in the order [Object.entries] yields them. *)
Record RuntimeError := { code : string; message : string }.

Record Result := {
  audits : list (string * AuditResult);
  runtimeError : option RuntimeError
}.

Record MinMax := { min : float; max : float }.

Record Summary := {
  average : float;
  median : option float;
  standardDeviation : float;
  percentile95 : option float;
  percentile99 : option float;
  minMax : MinMax;
  spread : float;
  empiricalVariance : float;
  variationCoefficient : float;
  values : list float
}.

Definition calculateAverage (values : list float) : float :=
  fold_left (fun a b => a + b) values 0 / JS.length_number values.

(** [values.sort()] sorts the argument itself: the second component is the
    array the caller holds afterwards. An array length is an integer below
    2^32, on which [/ 2], [Math.floor] and [% 2] are exact. *)
Definition calculateMedian (values : list float)
  : option float * list float :=
  let sorted := JS.sort JS.default_compare values in
  let middle := (Z.of_nat (length sorted) / 2)%Z in
  if (Z.of_nat (length sorted) mod 2 =? 0)%Z then
    (Some (JS.add (JS.get sorted (middle - 1)) (JS.get sorted middle) / 2),
     sorted)
  else (JS.get sorted middle, sorted).

Definition calculateStandardDeviation (values : list float) : float :=
  let average := calculateAverage values in
  let squaredDiffs := map (fun value => JS.Math_pow2 (value - average)) values in
  let averageSquaredDiffs := calculateAverage squaredDiffs in
  sqrt averageSquaredDiffs.

Definition calculatePercentile (values : list float) (percentile : float)
  : option float * list float :=
  let sorted := JS.sort JS.default_compare values in
  let index := JS.Math_ceil ((percentile / 100) * JS.length_number sorted) in
  (JS.get_number sorted index, sorted).

Definition calculateMinMax (values : list float) : MinMax :=
  {| min := JS.Math_min values; max := JS.Math_max values |}.

Definition calculateSpread (values : list float) : float :=
  let mm := calculateMinMax values in
  max mm - min mm.

Definition calculateEmpiricalVariance (values : list float) : float :=
  let average := calculateAverage values in
  let diffs := map (fun value => abs (value - average)) values in
  calculateAverage diffs.

Definition calculateVariationCoefficient (values : list float) : float :=
  let average := calculateAverage values in
  let standardDeviation := calculateStandardDeviation values in
  (standardDeviation / average) * 100.

(** The body of the inner loop of [parseResults]. *)
Definition collect_entry (audits : list (string * list float))
    (entry : string * AuditResult) : list (string * list float) :=
  let '(audit, auditResult) := entry in
  match numericValue auditResult with
  | Some v =>
      if JS.ToBoolean (Some v) then
        let audits :=
          if negb (JS.Map.has audits audit) then JS.Map.set audits audit []
          else audits in
        match JS.Map.get audits audit with
        | Some series => JS.Map.set audits audit (series ++ [v])
        | None => audits
        end
      else audits
  | None => audits
  end.

(** The first loop: the series of every metric, in a [Map]. *)
Definition collect (results : list Result) : list (string * list float) :=
  fold_left (fun series result => fold_left collect_entry (audits result) series)
    results [].

(** The object literal of the second loop. Its properties are evaluated in
    order on one array, which [calculateMedian] and [calculatePercentile]
    sort; the property [values] is that array. *)
Definition summarize (values : list float) : Summary :=
  let average := calculateAverage values in
  let '(median, values) := calculateMedian values in
  let standardDeviation := calculateStandardDeviation values in
  let '(percentile95, values) := calculatePercentile values 95 in
  let '(percentile99, values) := calculatePercentile values 99 in
  let minMax := calculateMinMax values in
  let spread := calculateSpread values in
  let empiricalVariance := calculateEmpiricalVariance values in
  let variationCoefficient := calculateVariationCoefficient values in
  {| average := average;
     median := median;
     standardDeviation := standardDeviation;
     percentile95 := percentile95;
     percentile99 := percentile99;
     minMax := minMax;
     spread := spread;
     empiricalVariance := empiricalVariance;
     variationCoefficient := variationCoefficient;
     values := values |}.

Definition parseResults (results : list Result) : gmap string Summary :=
  fold_left
    (fun parsedResults '(audit, values) =>
       JS.set_property parsedResults audit (summarize values))
    (collect results) ∅.

Record Csv := { header : string; values_line : string }.

Section ResultToCsv.
(** [String.prototype.localeCompare], which the host's collation decides. *)
Variable localeCompare : string -> string -> Z.

Definition resultToCsv (result : Result) : Csv :=
  let numericAudits :=
    filter (fun entry => bool_decide (numericValue (snd entry) <> None))
      (JS.sort (fun a b => localeCompare (fst a) (fst b)) (audits result)) in
  {| header := String.concat "," (map fst numericAudits);
     values_line :=
       JS.join "," (map (fun entry => numericValue (snd entry)) numericAudits) |}.

End ResultToCsv.

End ResultsParser.

(** ** The run loop of [src/index.ts] *)

Module Index.
Import ResultsParser.

Definition runsPerPage : Z := 10.

(** What [lighthouse(...)] resolves to, when it resolves to a value. *)
Record RunnerResult := { lhr : Result; report : string }.

(** What the loop does to its collaborators: the progress bar of the
    combination, the audit, and the file system
    ([WriteFile i report] writes [report] to [<throttlingDir>/<i>.json]). *)
Inductive event :=
| RunBarIncrement
| Lighthouse
| WriteFile (i : Z) (report : string).

Record LoopState := {
  i : Z;
  results : list Result;
  trace : list event
}.

Definition initial : LoopState := {| i := 0; results := []; trace := [] |}.

(** [!runnerResult || runnerResult.lhr.runtimeError]: a runtime error is an
    object, hence truthy. *)
Definition rerun (runnerResult : option RunnerResult) : bool :=
  match runnerResult with
  | None => true
  | Some r => bool_decide (runtimeError (lhr r) <> None)
  end.

(** One pass through the body of the loop, up to and including the [i++]
    of the loop header, for a given outcome of the audit. The later test
    [if (!runnerResult) throw] cannot succeed once [rerun] has failed. *)
Definition iteration (runnerResult : option RunnerResult) (st : LoopState)
  : LoopState :=
  let trace := trace st ++ [RunBarIncrement; Lighthouse] in
  match runnerResult with
  | Some r =>
      if rerun runnerResult then
        {| i := (i st - 1 + 1)%Z; results := results st; trace := trace |}
      else
        {| i := (i st + 1)%Z;
           results := results st ++ [lhr r];
           trace := trace ++ [WriteFile (i st) (report r)] |}
  | None =>
      {| i := (i st - 1 + 1)%Z; results := results st; trace := trace |}
  end.

(** [for (let i = 0; i < N; i++)], fed with the outcomes of the successive
    audits. [None]: the loop asks for an audit beyond the given outcomes. *)
Fixpoint run_loop (N : Z) (outcomes : list (option RunnerResult))
    (st : LoopState) : option LoopState :=
  if (i st <? N)%Z then
    match outcomes with
    | [] => None
    | runnerResult :: outcomes' => run_loop N outcomes' (iteration runnerResult st)
    end
  else Some st.

(** The loop as the program runs it for one combination. *)
Definition run_combination (outcomes : list (option RunnerResult))
  : option LoopState :=
  run_loop runsPerPage outcomes initial.

(** The runs the loop accepts when it is given [outcomes]. *)
Definition accepted (outcomes : list (option RunnerResult))
  : list RunnerResult :=
  omap (fun o => if rerun o then None else o) outcomes.

End Index.

(** ** Reference definitions, in the words of the specification *)

Module Textbook.

Definition numeric_compare (a b : float) : Z :=
  if a <? b then (-1)%Z else if b <? a then 1%Z else 0%Z.

(** The median of the series sorted ascending by numeric value: the middle
    element for an odd length, the mean of the two central ones otherwise. *)
Definition median (series : list float) : option float :=
  let sorted := JS.sort numeric_compare series in
  let n := length sorted in
  if Nat.even n then
    match sorted !! (n / 2 - 1)%nat, sorted !! (n / 2)%nat with
    | Some a, Some b => Some ((a + b) / 2)
    | _, _ => None
    end
  else sorted !! (n / 2)%nat.

Fixpoint sum_from (acc : float) (series : list float) : float :=
  match series with
  | [] => acc
  | x :: rest => sum_from (acc + x) rest
  end.

Definition count (series : list float) : float :=
  JS.of_Z (Z.of_nat (length series)).

Definition mean (series : list float) : float :=
  sum_from 0 series / count series.

Definition squared_deviations (series : list float) : list float :=
  map (fun x => (x - mean series) * (x - mean series)) series.

(** Population standard deviation: the divisor is the number of values. *)
Definition population_standard_deviation (series : list float) : float :=
  sqrt (sum_from 0 (squared_deviations series) / count series).

(** Sample standard deviation: the divisor is one less. *)
Definition sample_standard_deviation (series : list float) : float :=
  sqrt (sum_from 0 (squared_deviations series) / (count series - 1)).

End Textbook.

(** ** The progress protocol, in the words of the specification *)

Module Progress.
Import Index.

(** One increment signal for every accepted run, delivered after the run is
    accepted: along the trace every increment answers an accepted run
    ([WriteFile]) that has not been signalled yet, and none is left
    unanswered at the end. [pending] counts the accepted runs not yet
    signalled. *)
Fixpoint increments_follow_accepts (pending : nat) (tr : list event) : bool :=
  match tr with
  | [] => Nat.eqb pending 0
  | RunBarIncrement :: tr' =>
      match pending with
      | O => false
      | S pending' => increments_follow_accepts pending' tr'
      end
  | Lighthouse :: tr' => increments_follow_accepts pending tr'
  | WriteFile _ _ :: tr' => increments_follow_accepts (S pending) tr'
  end.

Definition is_increment (e : event) : bool :=
  match e with
  | RunBarIncrement => true
  | _ => false
  end.

(** The number of increment signals in a trace. *)
Definition increments (tr : list event) : nat :=
  length (filter (fun e => is_increment e = true) tr).

End Progress.

(** ** The series of a metric, read off the runs *)

Module Series.
Import ResultsParser.

(** What one audit entry adds to the series of [name]: its numeric value
    when the entry is for [name] and the value passes the test of
    [parseResults]. *)
Definition contribution (name : string) (entry : string * AuditResult)
  : list float :=
  match numericValue (snd entry) with
  | Some v =>
      if JS.ToBoolean (Some v) && String.eqb (fst entry) name then [v] else []
  | None => []
  end.

(** The values that pass the test, in the order of the runs. *)
Definition of_runs (name : string) (results : list Result) : list float :=
  flat_map (fun result => flat_map (contribution name) (audits result)) results.

(** A run reports a numeric value for [name], whatever the value is. *)
Definition reports (name : string) (result : Result) : bool :=
  existsb
    (fun entry =>
       String.eqb (fst entry) name
       && bool_decide (numericValue (snd entry) <> None))
    (audits result).

(** The number of runs that report a numeric value for [name]. *)
Definition reporting_runs (name : string) (results : list Result) : nat :=
  length (filter (fun result => reports name result = true) results).

(** Appending to a series that may not exist yet. *)
Definition extend (series : option (list float)) (more : list float)
  : option (list float) :=
  match more with
  | [] => series
  | _ => Some (default [] series ++ more)
  end.

End Series.

(** ** The columns of a row *)

Module Columns.
Import ResultsParser.

(** The metrics of a list of audit entries whose numeric value is defined,
    each with its value, in the order of the entries. *)
Definition of_entries (entries : list (string * AuditResult))
  : list (string * float) :=
  omap (fun entry => pair (fst entry) <$> numericValue (snd entry)) entries.

(** Strictly ascending order of strings by code units. *)
Definition lex_lt (a b : string) : Prop := String.ltb a b = true.

End Columns.

(** ** The order of binary64 values *)

Module FloatOrder.

(** A key on which [SFcompare] is the lexicographic comparison: the class
    of the value by sign, then exponent and mantissa, mirrored for the
    negative values. *)
Definition key (f : spec_float) : Z * Z * Z :=
  match f with
  | S754_infinity true => (-2, 0, 0)%Z
  | S754_finite true m e => (-1, - e, Z.neg m)%Z
  | S754_zero _ => (0, 0, 0)%Z
  | S754_finite false m e => (1, e, Z.pos m)%Z
  | S754_infinity false => (2, 0, 0)%Z
  | S754_nan => (3, 0, 0)%Z
  end.

Definition key_le (a b : Z * Z * Z) : Prop :=
  (a.1.1 < b.1.1
   \/ (a.1.1 = b.1.1
       /\ (a.1.2 < b.1.2 \/ (a.1.2 = b.1.2 /\ a.2 <= b.2))))%Z.

(** A number that is not below zero: [NaN], a zero of either sign, or a
    positive value. *)
Definition not_negative (x : float) : Prop := (x <? 0)%float = false.

(** A value whose sign bit is clear, or [NaN]. *)
Definition sign_false (f : spec_float) : Prop :=
  match f with
  | S754_zero s | S754_infinity s | S754_finite s _ _ => s = false
  | S754_nan => True
  end.

End FloatOrder.

(** ** Reading a trace of the run loop *)

Module Trace.
Import Index.

(** The reports written, each with the index in its file name, in the order
    of the writes. *)
Definition writes (tr : list event) : list (Z * string) :=
  omap (fun e => match e with
                 | WriteFile i report => Some (i, report)
                 | _ => None
                 end) tr.

Definition is_audit (e : event) : bool :=
  match e with
  | Lighthouse => true
  | _ => false
  end.

(** The number of audits invoked. *)
Definition audits (tr : list event) : nat :=
  length (filter (fun e => is_audit e = true) tr).

(** The number of attempts among [outcomes] that are run again. *)
Definition failures (outcomes : list (option RunnerResult)) : nat :=
  length (filter (fun o => rerun o = true) outcomes).

End Trace.

(** ** Commas in a line of text *)

Module Text.

(** The number of commas in a string: one less than the number of fields a
    reader of the CSV file finds in the line. *)
Fixpoint commas (s : string) : nat :=
  match s with
  | EmptyString => 0
  | String c s' => (if Ascii.eqb c ","%char then 1 else 0) + commas s'
  end.

Definition newline : string := String "010"%char EmptyString.

End Text.

(** ** The CSV report of a combination ([src/index.ts]) *)

Module Report.
Import ResultsParser.

Section Csv.
Variable localeCompare : string -> string -> Z.

(** What the second loop appends to [report.csv] for [results[i]]. *)
Definition contents (i : nat) (result : Result) : string :=
  let csv := resultToCsv localeCompare result in
  if Nat.eqb i 0 then
    header csv +:+ Text.newline +:+ values_line csv +:+ Text.newline
  else values_line csv +:+ Text.newline.

(** The successive appends of the loop. *)
Definition appends (results : list Result) : list string :=
  imap contents results.

(** [report.csv] after the loop, the file of an earlier batch having been
    removed first: no file when nothing is appended. *)
Definition report_csv (results : list Result) : option string :=
  match appends results with
  | [] => None
  | parts => Some (String.concat EmptyString parts)
  end.

End Csv.

End Report.

(** ** [toCsv] of [src/results-parser.ts] *)

Module Table.
Import ResultsParser.

(** What [join] makes of an object that is not an array. *)
Definition object_Object : string := "[object Object]".

(** A number or [undefined] as [join] renders it. *)
Definition cell (v : option float) : string :=
  match v with
  | Some x => JS.Number_toString x
  | None => EmptyString
  end.

(** [Object.values(result)] for a summary, in the order of its properties,
    each value as [join] renders it: the object [minMax] by its default
    string, the array [values] by its own [join]. *)
Definition cells (result : Summary) : list string :=
  [cell (Some (average result));
   cell (median result);
   cell (Some (standardDeviation result));
   cell (percentile95 result);
   cell (percentile99 result);
   object_Object;
   cell (Some (spread result));
   cell (Some (empiricalVariance result));
   cell (Some (variationCoefficient result));
   JS.join "," (map Some (values result))].

(** [results] lists the properties of the object in their order; [None]
    stands for a missing argument. *)
Definition toCsv (results : option (list (string * Summary))) : string :=
  let header :=
    match results with
    | Some entries => String.concat "," (map fst entries)
    | None => EmptyString
    end in
  let rows :=
    match results with
    | Some entries =>
        map (fun entry => String.concat "," (cells entry.2)) entries
    | None => []
    end in
  String.concat Text.newline (header :: rows).

End Table.

(** ** The host's comparison of metric names *)

Module Collation.

(** [localeCompare] agrees in sign with the comparison by code units on the
    names at hand. *)
Definition lexicographic_on (localeCompare : string -> string -> Z)
    (names : list string) : Prop :=
  forall a b, In a names -> In b names ->
    Z.sgn (localeCompare a b) = JS.code_unit_compare a b.

(** [localeCompare] is a total order on the names at hand: a consistent
    comparator that tells any two of them apart. *)
Definition total_order_on (localeCompare : string -> string -> Z)
    (names : list string) : Prop :=
  (forall a b, In a names -> In b names ->
     (localeCompare a b <= 0)%Z \/ (localeCompare b a <= 0)%Z)
  /\ (forall a b c, In a names -> In b names -> In c names ->
        (localeCompare a b <= 0)%Z -> (localeCompare b c <= 0)%Z ->
        (localeCompare a c <= 0)%Z)
  /\ (forall a b, In a names -> In b names ->
        (localeCompare a b <= 0)%Z -> (localeCompare b a <= 0)%Z -> a = b).

(** A decision of [total_order_on] for a given list of names. *)
Definition total_order_check (localeCompare : string -> string -> Z)
    (names : list string) : bool :=
  forallb
    (fun a =>
       forallb
         (fun b =>
            ((localeCompare a b <=? 0)%Z || (localeCompare b a <=? 0)%Z)
            && implb ((localeCompare a b <=? 0)%Z && (localeCompare b a <=? 0)%Z)
                 (String.eqb a b)
            && forallb
                 (fun c =>
                    implb ((localeCompare a b <=? 0)%Z
                           && (localeCompare b c <=? 0)%Z)
                      (localeCompare a c <=? 0)%Z)
                 names)
         names)
    names.

Definition lower_case (c : ascii) : ascii :=
  let n := nat_of_ascii c in
  if (65 <=? n)%nat && (n <=? 90)%nat then ascii_of_nat (n + 32) else c.

Fixpoint lower (s : string) : string :=
  match s with
  | EmptyString => EmptyString
  | String c s' => String (lower_case c) (lower s')
  end.

(** A comparison that orders words of ASCII letters as the collation of a
    host does, in the order a, A, b, B: by the letters without regard to
    case, and between words that differ in case only, lower case first. *)
Definition letters_compare (a b : string) : Z :=
  let primary := JS.code_unit_compare (lower a) (lower b) in
  if (primary =? 0)%Z then (- JS.code_unit_compare a b)%Z else primary.

End Collation.

(** ** Sample inputs *)

(** The series 1, 2, ..., n. *)
Definition one_to (n : nat) : list float :=
  map (fun k => JS.of_Z (Z.of_nat k)) (seq 1 n).

(** A result without runtime error whose audits carry the given numeric
    values, in the given order. *)
Definition result_of (metrics : list (string * option float))
  : ResultsParser.Result :=
  {| ResultsParser.audits :=
       map (fun '(name, v) => (name, {| ResultsParser.numericValue := v |}))
         metrics;
     ResultsParser.runtimeError := None |}.

(** An audit that succeeds and one that reports a runtime error. *)
Definition ok_run (report : string) (metrics : list (string * option float))
  : Index.RunnerResult :=
  {| Index.lhr := result_of metrics; Index.report := report |}.

Definition failed_run : Index.RunnerResult :=
  {| Index.lhr :=
       {| ResultsParser.audits := [];
          ResultsParser.runtimeError :=
            Some {| ResultsParser.code := "NO_FCP";
                    ResultsParser.message := "The page did not paint" |} |};
     Index.report := "{}" |}.

(** ** The number-to-string conversion on known values *)

Example toString_examples :
  map JS.Number_toString
    [10; 2; 33; 0.1; 1.5; 1e21; 123456789012345680000; 5e-324; 0.000001;
     1e-7; -42; 1234.5678; 0.30000000000000004; 1.7976931348623157e308;
     100; 4.35; 9007199254740993; 2.2250738585072014e-308; 0.5; 123e-20; -1e-7]
  = ["10"; "2"; "33"; "0.1"; "1.5"; "1e+21"; "123456789012345680000";
     "5e-324"; "0.000001"; "1e-7"; "-42"; "1234.5678"; "0.30000000000000004";
     "1.7976931348623157e+308"; "100"; "4.35"; "9007199254740992";
     "2.2250738585072014e-308"; "0.5"; "1.23e-18"; "-1e-7"]%string.
Proof. vm_compute. reflexivity. Qed.

(** ** The array operations *)

Section SortFacts.
Context {A : Type} (cmp : A -> A -> Z).

Lemma insert_perm (x : A) (l : list A) :
  Permutation (JS.insert cmp x l) (x :: l).
Proof.
  induction l as [|y l IH]; simpl; [reflexivity|].
  destruct (cmp x y <=? 0)%Z; [reflexivity|].
  rewrite IH. apply perm_swap.
Qed.

Lemma sort_perm (l : list A) : Permutation (JS.sort cmp l) l.
Proof.
  induction l as [|x l IH]; simpl; [reflexivity|].
  rewrite insert_perm. now constructor.
Qed.

Lemma sort_length (l : list A) : length (JS.sort cmp l) = length l.
Proof. apply Permutation_length, sort_perm. Qed.

Lemma get_length (l : list A) : JS.get l (Z.of_nat (length l)) = None.
Proof.
  unfold JS.get. rewrite Z.ltb_irrefl, andb_false_r. reflexivity.
Qed.

Lemma get_lookup (l : list A) (n : nat) :
  JS.get l (Z.of_nat n) = l !! n.
Proof.
  unfold JS.get. rewrite Nat2Z.id.
  destruct (Z.leb_spec 0 (Z.of_nat n)); [|lia].
  destruct (Z.ltb_spec (Z.of_nat n) (Z.of_nat (length l))); simpl.
  - clear. revert n. induction l; destruct n; simpl; auto.
  - symmetry. apply lookup_ge_None. lia.
Qed.

End SortFacts.

(** ** Median (C1) *)

Local Open Scope float_scope.

(** C1: the median is not the textbook median. On the series 10, 2, 33
    [calculateMedian] sorts the values as strings, which leaves them in the
    order 10, 2, 33, and returns 2; the median of the series sorted by
    numeric value is 10. *)
Theorem calculateMedian_sorts_as_strings :
  ResultsParser.calculateMedian [10; 2; 33] = (Some 2, [10; 2; 33])
  /\ JS.sort JS.default_compare [10; 2; 33] = [10; 2; 33]
  /\ JS.sort Textbook.numeric_compare [10; 2; 33] = [2; 10; 33]
  /\ Textbook.median [10; 2; 33] = Some 10.
Proof. vm_compute. repeat split; reflexivity. Qed.

(** Apart from the comparator, [calculateMedian] is the textbook median:
    on a non-empty series that the string order and the numeric order sort
    alike, the two agree. *)
Lemma calculateMedian_textbook (values : list float) :
  values <> [] ->
  JS.sort JS.default_compare values = JS.sort Textbook.numeric_compare values ->
  fst (ResultsParser.calculateMedian values) = Textbook.median values.
Proof.
  intros Hne Hsort.
  unfold ResultsParser.calculateMedian, Textbook.median. rewrite Hsort.
  set (sorted := JS.sort Textbook.numeric_compare values).
  assert (Hlen : (1 <= length sorted)%nat).
  { unfold sorted. rewrite sort_length.
    destruct values; [congruence | simpl; lia]. }
  remember (length sorted) as n eqn:Hn.
  replace (Z.of_nat n / 2)%Z with (Z.of_nat (n / 2))
    by (now rewrite Nat2Z.inj_div).
  destruct (Nat.even n) eqn:Heven.
  - apply Nat.even_spec in Heven as [k Hk].
    assert (Hhalf : (n / 2 = k)%nat)
      by (rewrite Hk, Nat.mul_comm; apply Nat.div_mul; lia).
    rewrite (proj2 (Z.eqb_eq _ _))
      by (replace (Z.of_nat n) with (Z.of_nat k * 2)%Z by lia;
          apply Z_mod_mult).
    cbn [fst]. rewrite Hhalf.
    replace (Z.of_nat k - 1)%Z with (Z.of_nat (k - 1)) by lia.
    rewrite !get_lookup.
    destruct (lookup_lt_is_Some_2 sorted (k - 1)) as [a ->]; [lia|].
    destruct (lookup_lt_is_Some_2 sorted k) as [b ->]; [lia|].
    reflexivity.
  - assert (Hodd : Nat.odd n = true) by (now rewrite <- Nat.negb_even, Heven).
    apply Nat.odd_spec in Hodd as [k Hk].
    rewrite (proj2 (Z.eqb_neq _ _))
      by (replace (Z.of_nat n) with (1 + Z.of_nat k * 2)%Z by lia;
          rewrite Z_mod_plus_full; discriminate).
    cbn [fst]. apply get_lookup.
Qed.

(** ** Percentiles (C2) *)

(** The index [Math.ceil(percentile / 100 * length)] is the length itself
    for every length from 1 to 19 (95th percentile) and from 1 to 99
    (99th percentile). *)
Lemma percentile_index_is_length (n : nat) :
  (1 <= n)%nat ->
  ((n <= 19)%nat ->
   JS.to_index (JS.Math_ceil (95 / 100 * JS.of_Z (Z.of_nat n)))
   = Some (Z.of_nat n))
  /\ ((n <= 99)%nat ->
      JS.to_index (JS.Math_ceil (99 / 100 * JS.of_Z (Z.of_nat n)))
      = Some (Z.of_nat n)).
Proof.
  intros Hn.
  assert (H95 : forallb (fun n =>
            bool_decide (JS.to_index (JS.Math_ceil (95 / 100 * JS.of_Z (Z.of_nat n)))
                         = Some (Z.of_nat n))) (seq 1 19) = true)
    by (vm_compute; reflexivity).
  assert (H99 : forallb (fun n =>
            bool_decide (JS.to_index (JS.Math_ceil (99 / 100 * JS.of_Z (Z.of_nat n)))
                         = Some (Z.of_nat n))) (seq 1 99) = true)
    by (vm_compute; reflexivity).
  rewrite forallb_forall in H95, H99.
  split; intros Hle.
  - eapply bool_decide_eq_true_1, H95, in_seq. lia.
  - eapply bool_decide_eq_true_1, H99, in_seq. lia.
Qed.

(** With fewer than 20 values the 95th percentile is [undefined], and with
    fewer than 100 values so is the 99th. *)
Lemma calculatePercentile_undefined (values : list float) :
  values <> [] ->
  ((length values <= 19)%nat ->
   fst (ResultsParser.calculatePercentile values 95) = None)
  /\ ((length values <= 99)%nat ->
      fst (ResultsParser.calculatePercentile values 99) = None).
Proof.
  intros Hne.
  assert (Hlen : (1 <= length values)%nat)
    by (destruct values; [congruence | simpl; lia]).
  destruct (percentile_index_is_length (length values) Hlen) as [H95 H99].
  unfold ResultsParser.calculatePercentile, JS.get_number, JS.length_number.
  cbn [fst]. rewrite !sort_length.
  split; intros Hle.
  - rewrite (H95 Hle), <- (sort_length JS.default_compare values).
    apply get_length.
  - rewrite (H99 Hle), <- (sort_length JS.default_compare values).
    apply get_length.
Qed.

(** C2: the index is not clamped. On the one-value series 5 both
    percentiles read index 1 of an array of length 1 and return
    [undefined]. On the series 1..100 the indices are 95 and 99, inside
    the array. *)
Theorem calculatePercentile_reads_past_end :
  ResultsParser.calculatePercentile [5] 95 = (None, [5])
  /\ ResultsParser.calculatePercentile [5] 99 = (None, [5])
  /\ JS.Math_ceil (95 / 100 * JS.length_number [5]) = 1
  /\ JS.Math_ceil (95 / 100 * JS.length_number (one_to 100)) = 95
  /\ JS.Math_ceil (99 / 100 * JS.length_number (one_to 100)) = 99
  /\ fst (ResultsParser.calculatePercentile (one_to 100) 95) = Some 95
  /\ fst (ResultsParser.calculatePercentile (one_to 100) 99) = Some 99.
Proof. vm_compute. repeat split; reflexivity. Qed.

(** ** Zero-valued samples (C3) *)

(** C3: a numeric value 0 is left out of the series. Two runs report the
    metric [m] with the values 0 and 10: the series is 10 alone and its
    average 10, where the average of 0 and 10 is 5. [resultToCsv], which
    tests [!== undefined], keeps the 0. *)
Theorem parseResults_drops_zero :
  let runs := [result_of [("m", Some 0)]; result_of [("m", Some 10)]] in
  ResultsParser.collect runs = [("m", [10])]
  /\ ResultsParser.average <$> (ResultsParser.parseResults runs !! "m")
     = Some 10
  /\ ResultsParser.values <$> (ResultsParser.parseResults runs !! "m")
     = Some [10]
  /\ ResultsParser.calculateAverage [0; 10] = 5
  /\ ResultsParser.collect [result_of [("m", Some 0)]] = []
  /\ ResultsParser.resultToCsv JS.code_unit_compare (result_of [("m", Some 0)])
     = {| ResultsParser.header := "m"; ResultsParser.values_line := "0" |}.
Proof. vm_compute. repeat split; reflexivity. Qed.

(** ** Standard deviation and spread (C9) *)

Lemma reduce_sum (series : list float) (acc : float) :
  fold_left (fun a b => a + b) series acc = Textbook.sum_from acc series.
Proof.
  revert acc. induction series as [|x series IH]; intros acc; simpl; auto.
Qed.

Lemma calculateAverage_mean (series : list float) :
  ResultsParser.calculateAverage series = Textbook.mean series.
Proof.
  unfold ResultsParser.calculateAverage, Textbook.mean. now rewrite reduce_sum.
Qed.

(** C9: the standard deviation of a non-empty series is the square root of
    the sum of the squared deviations from the mean divided by the number
    of values (population, not sample); on 5, 5, 5, 5 it is 0 and so is the
    spread. On 1, 3 the population value is 1 and differs from the sample
    value. *)
Theorem calculateStandardDeviation_population (values : list float) :
  values <> [] ->
  ResultsParser.calculateStandardDeviation values
  = Textbook.population_standard_deviation values
  /\ ResultsParser.calculateStandardDeviation [5; 5; 5; 5] = 0
  /\ ResultsParser.calculateSpread [5; 5; 5; 5] = 0
  /\ ResultsParser.calculateStandardDeviation [1; 3] = 1
  /\ Textbook.sample_standard_deviation [1; 3] <> 1.
Proof.
  intros _. split.
  - unfold ResultsParser.calculateStandardDeviation,
      Textbook.population_standard_deviation, Textbook.squared_deviations.
    rewrite <- calculateAverage_mean.
    unfold ResultsParser.calculateAverage at 1.
    rewrite reduce_sum. unfold JS.length_number, Textbook.count.
    rewrite length_map. reflexivity.
  - repeat split; try (vm_compute; reflexivity).
    vm_compute. discriminate.
Qed.

Lemma calculateStandardDeviation_population_witness :
  [2; 4; 4; 4; 5; 5; 7; 9] <> []
  /\ ResultsParser.calculateStandardDeviation [2; 4; 4; 4; 5; 5; 7; 9] = 2
  /\ Textbook.population_standard_deviation [2; 4; 4; 4; 5; 5; 7; 9] = 2.
Proof.
  assert (Hne : [2; 4; 4; 4; 5; 5; 7; 9] <> []) by discriminate.
  split; [exact Hne|].
  destruct (calculateStandardDeviation_population _ Hne) as [H _].
  split; [|rewrite <- H]; vm_compute; reflexivity.
Defined.

(** ** Coefficient of variation (C10) *)

Lemma not_finite_of_spec (y : float) :
  match Prim2SF y with
  | S754_nan | S754_infinity _ => True
  | _ => False
  end ->
  is_finite y = false.
Proof.
  unfold is_finite, is_nan, is_infinity.
  rewrite !eqb_spec, abs_spec.
  destruct (Prim2SF y) as [s|s| |s m e]; try contradiction; intros _.
  - destruct s; vm_compute; reflexivity.
  - vm_compute; reflexivity.
Qed.

Lemma is_zero_spec (y : float) :
  is_zero y = true -> exists s, Prim2SF y = S754_zero s.
Proof.
  unfold is_zero. rewrite eqb_spec.
  replace (Prim2SF zero) with (S754_zero false) by reflexivity.
  destruct (Prim2SF y) as [s|s| |s m e]; intros H; eauto;
    try destruct s; cbv in H; discriminate.
Qed.

(** A quotient by zero, times 100, is infinite or [NaN]. *)
Lemma div_zero_times_not_finite (x z : float) :
  is_zero z = true -> is_finite (x / z * 100) = false.
Proof.
  intros [sz Hz]%is_zero_spec.
  apply not_finite_of_spec.
  rewrite mul_spec, div_spec, Hz.
  replace (Prim2SF 100) with (S754_finite false 7036874417766400 (-46))
    by (vm_compute; reflexivity).
  destruct (Prim2SF x) as [s|s| |s m e]; simpl; auto.
Qed.

(** C10: the coefficient of variation is (standard deviation / average)
    * 100, and for a non-empty series whose average is zero that number is
    not finite. *)
Theorem calculateVariationCoefficient_zero_mean (values : list float) :
  values <> [] ->
  ResultsParser.calculateVariationCoefficient values
  = ResultsParser.calculateStandardDeviation values
    / ResultsParser.calculateAverage values * 100
  /\ (is_zero (ResultsParser.calculateAverage values) = true ->
      is_finite (ResultsParser.calculateVariationCoefficient values) = false).
Proof.
  intros _. split; [reflexivity|].
  intros Hz. unfold ResultsParser.calculateVariationCoefficient.
  now apply div_zero_times_not_finite.
Qed.

Lemma calculateVariationCoefficient_zero_mean_witness :
  ResultsParser.calculateAverage [-1; 1] = 0
  /\ ResultsParser.calculateVariationCoefficient [-1; 1] = infinity
  /\ is_finite (ResultsParser.calculateVariationCoefficient [-1; 1]) = false.
Proof.
  assert (Hne : [-1; 1] <> []) by discriminate.
  destruct (calculateVariationCoefficient_zero_mean _ Hne) as [_ H].
  split; [vm_compute; reflexivity|].
  split; [vm_compute; reflexivity|].
  apply H. vm_compute. reflexivity.
Defined.

(** ** The run loop (C4) *)

Section RunLoop.
Import Index.

Lemma iteration_rerun (o : option RunnerResult) (st : LoopState) :
  rerun o = true ->
  iteration o st
  = {| i := i st; results := results st;
       trace := trace st ++ [RunBarIncrement; Lighthouse] |}.
Proof.
  intros Hr. unfold iteration. rewrite Hr.
  replace (i st - 1 + 1)%Z with (i st) by lia.
  now destruct o.
Qed.

Lemma iteration_accept (r : RunnerResult) (st : LoopState) :
  rerun (Some r) = false ->
  iteration (Some r) st
  = {| i := (i st + 1)%Z; results := results st ++ [lhr r];
       trace := (trace st ++ [RunBarIncrement; Lighthouse])
                ++ [WriteFile (i st) (report r)] |}.
Proof. intros Hr. unfold iteration. rewrite Hr. reflexivity. Qed.

Lemma accepted_cons_rerun (o : option RunnerResult) outcomes :
  rerun o = true -> accepted (o :: outcomes) = accepted outcomes.
Proof. intros Hr. unfold accepted. simpl. now rewrite Hr. Qed.

Lemma accepted_cons_accept (r : RunnerResult) outcomes :
  rerun (Some r) = false ->
  accepted (Some r :: outcomes) = r :: accepted outcomes.
Proof. intros Hr. unfold accepted. simpl in *. now rewrite Hr. Qed.

Lemma rerun_cases (o : option RunnerResult) :
  rerun o = true \/ exists r, o = Some r /\ rerun (Some r) = false.
Proof.
  destruct (rerun o) eqn:Hr; [now left|right].
  destruct o as [r|]; [eauto | discriminate].
Qed.

Lemma run_loop_cons (N : Z) (o : option RunnerResult) outcomes st :
  run_loop N (o :: outcomes) st
  = if (i st <? N)%Z then run_loop N outcomes (iteration o st) else Some st.
Proof. reflexivity. Qed.

(** From any state whose index has not passed [N], the loop returns once
    it has accepted the next [N - i] successful outcomes. *)
Lemma run_loop_accepts (N : Z) (outcomes : list (option RunnerResult)) :
  forall st : LoopState,
    (i st <= N)%Z ->
    (N - i st <= Z.of_nat (length (accepted outcomes)))%Z ->
    exists st',
      run_loop N outcomes st = Some st'
      /\ i st' = N
      /\ results st'
         = results st
           ++ map lhr (take (Z.to_nat (N - i st)) (accepted outcomes)).
Proof.
  induction outcomes as [|o outcomes IH]; intros st Hi Hn.
  - simpl in *. assert (i st = N) as <- by lia.
    rewrite Z.ltb_irrefl, Z.sub_diag. simpl.
    exists st. now rewrite app_nil_r.
  - rewrite run_loop_cons. destruct (Z.ltb_spec (i st) N) as [Hlt|Hge].
    + destruct (rerun_cases o) as [Hr|(r & -> & Hr)].
      * rewrite accepted_cons_rerun in * by assumption.
        rewrite iteration_rerun by assumption.
        destruct (IH {| i := i st; results := results st;
                        trace := trace st ++ [RunBarIncrement; Lighthouse] |})
          as (st' & Hrun & Hi' & Hres); simpl; auto.
        simpl in Hres. exists st'. repeat split; assumption.
      * rewrite accepted_cons_accept in * by assumption.
        rewrite iteration_accept by assumption.
        simpl in Hn.
        destruct (IH {| i := (i st + 1)%Z; results := results st ++ [lhr r];
                        trace := (trace st ++ [RunBarIncrement; Lighthouse])
                                 ++ [WriteFile (i st) (report r)] |})
          as (st' & Hrun & Hi' & Hres); simpl; try lia.
        exists st'. split; [assumption|]. split; [assumption|].
        rewrite Hres. simpl.
        replace (Z.to_nat (N - i st)) with (S (Z.to_nat (N - (i st + 1))))
          by lia.
        simpl. now rewrite <- app_assoc.
    + assert (i st = N) as <- by lia.
      rewrite Z.sub_diag. exists st. simpl. now rewrite app_nil_r.
Qed.

(** With the configured quota the loop returns ten results. *)
Lemma run_combination_accepts (outcomes : list (option RunnerResult)) :
  (10 <= length (accepted outcomes))%nat ->
  exists st,
    run_combination outcomes = Some st
    /\ results st = map lhr (take 10 (accepted outcomes))
    /\ length (results st) = 10%nat.
Proof.
  intros Hlen.
  destruct (run_loop_accepts runsPerPage outcomes initial)
    as (st & Hrun & _ & Hres); simpl; try (unfold runsPerPage; lia).
  exists st. split; [exact Hrun|].
  change (Z.to_nat (runsPerPage - i initial)) with 10%nat in Hres.
  simpl in Hres. split; [exact Hres|].
  rewrite Hres, length_map, length_take. lia.
Qed.

End RunLoop.

(** C4: given outcomes with at least [N] successes, the loop returns with
    exactly the first [N] successful results, in the order of the attempts,
    and with its index at [N]; an attempt that reports a runtime error or
    yields no result leaves the index and the accepted results as they
    were. *)
Theorem run_loop_quota (N : Z) (outcomes : list (option Index.RunnerResult)) :
  (0 <= N)%Z ->
  (N <= Z.of_nat (length (Index.accepted outcomes)))%Z ->
  (exists st,
      Index.run_loop N outcomes Index.initial = Some st
      /\ Index.results st
         = map Index.lhr (take (Z.to_nat N) (Index.accepted outcomes))
      /\ Z.of_nat (length (Index.results st)) = N
      /\ Index.i st = N)
  /\ (forall o st,
         Index.rerun o = true ->
         Index.i (Index.iteration o st) = Index.i st
         /\ Index.results (Index.iteration o st) = Index.results st).
Proof.
  intros HN Hlen. split.
  - destruct (run_loop_accepts N outcomes Index.initial)
      as (st & Hrun & Hi & Hres); simpl; try lia.
    rewrite Z.sub_0_r in Hres. simpl in Hres.
    exists st. repeat split; auto.
    rewrite Hres, length_map, length_take. lia.
  - intros o st Hr. rewrite iteration_rerun by assumption. auto.
Qed.

Lemma run_loop_quota_witness :
  let ok := ok_run "report" [("m", Some 1)] in
  let outcomes := [Some failed_run; None; Some ok] in
  (0 <= 1)%Z
  /\ (1 <= Z.of_nat (length (Index.accepted outcomes)))%Z
  /\ exists st,
       Index.run_loop 1 outcomes Index.initial = Some st
       /\ Index.results st = [Index.lhr ok]
       /\ Index.i st = 1%Z.
Proof.
  intros ok outcomes.
  assert (H0 : (0 <= 1)%Z) by lia.
  assert (H1 : (1 <= Z.of_nat (length (Index.accepted outcomes)))%Z)
    by (vm_compute; discriminate).
  split; [exact H0|]. split; [exact H1|].
  destruct (run_loop_quota 1 outcomes H0 H1) as [(st & Hrun & Hres & _ & Hi) _].
  exists st. repeat split; assumption.
Defined.

(** ** The progress bar of a combination (C8) *)

Section ProgressFacts.
Import Index Progress.

(** The loop only adds to the trace, and the trace it returns holds, for
    each run it accepts, an increment, the audit and the write of the
    run's report, in this order and next to each other. *)
Lemma run_loop_trace (N : Z) (outcomes : list (option RunnerResult)) :
  forall st st' : LoopState,
    run_loop N outcomes st = Some st' ->
    (exists post, trace st' = trace st ++ post)
    /\ (forall (k : nat) (r : RunnerResult),
           accepted outcomes !! k = Some r ->
           (i st + Z.of_nat k < N)%Z ->
           exists pre post,
             trace st'
             = pre ++ [RunBarIncrement; Lighthouse;
                       WriteFile (i st + Z.of_nat k) (report r)] ++ post).
Proof.
  induction outcomes as [|o outcomes IH]; intros st st' Hrun.
  - simpl in Hrun. destruct (i st <? N)%Z; [discriminate|].
    injection Hrun as <-. split.
    + exists []. now rewrite app_nil_r.
    + intros k r Hk. discriminate Hk.
  - rewrite run_loop_cons in Hrun.
    destruct (Z.ltb_spec (i st) N) as [Hlt|Hge].
    + destruct (rerun_cases o) as [Hr|(r0 & -> & Hr)].
      * rewrite iteration_rerun in Hrun by assumption.
        rewrite accepted_cons_rerun by assumption.
        destruct (IH _ _ Hrun) as [[post Hpost] Hpat]. simpl in *.
        split; [|exact Hpat].
        exists ([RunBarIncrement; Lighthouse] ++ post).
        now rewrite Hpost, <- app_assoc.
      * rewrite iteration_accept in Hrun by assumption.
        rewrite accepted_cons_accept by assumption.
        destruct (IH _ _ Hrun) as [[post Hpost] Hpat]. simpl in *.
        split.
        -- exists ([RunBarIncrement; Lighthouse; WriteFile (i st) (report r0)]
                   ++ post).
           rewrite Hpost, <- !app_assoc. reflexivity.
        -- intros [|k] r Hk Hlt'.
           ++ injection Hk as ->. exists (trace st), post.
              rewrite Hpost, <- !app_assoc, Z.add_0_r. reflexivity.
           ++ destruct (Hpat k r Hk) as (pre & post' & Heq); [lia|].
              exists pre, post'. rewrite Heq.
              replace (i st + 1 + Z.of_nat k)%Z with (i st + Z.of_nat (S k))%Z
                by lia.
              reflexivity.
    + injection Hrun as <-. split.
      * exists []. now rewrite app_nil_r.
      * intros k r _ Hk. lia.
Qed.

(** When no attempt fails, the loop adds one increment for each of the
    iterations it still has to make. *)
Lemma run_loop_increments (N : Z) (outcomes : list (option RunnerResult)) :
  Forall (fun o => rerun o = false) outcomes ->
  forall st st' : LoopState,
    run_loop N outcomes st = Some st' ->
    (i st <= N)%Z ->
    Z.of_nat (increments (trace st'))
    = (Z.of_nat (increments (trace st)) + (N - i st))%Z.
Proof.
  unfold increments.
  induction 1 as [|o outcomes Ho _ IH]; intros st st' Hrun Hi.
  - simpl in Hrun. destruct (Z.ltb_spec (i st) N); [discriminate|].
    injection Hrun as <-. lia.
  - rewrite run_loop_cons in Hrun.
    destruct (Z.ltb_spec (i st) N) as [Hlt|Hge].
    + destruct o as [r|]; [|discriminate].
      rewrite iteration_accept in Hrun by assumption.
      rewrite (IH _ _ Hrun) by (simpl; lia). simpl.
      rewrite !filter_app, !length_app. simpl. lia.
    + injection Hrun as <-. lia.
Qed.

End ProgressFacts.

(** C8, as the loop has it: given outcomes with at least [N] successes, the
    trace of the loop holds for each accepted run one increment that belongs
    to it, sent at the start of the run's attempt: it is followed at once by
    the audit and by the write of the run's report. When no attempt fails
    these [N] increments are all there are. *)
Theorem increment_precedes_each_accepted_run
    (N : Z) (outcomes : list (option Index.RunnerResult)) :
  (0 <= N)%Z ->
  (N <= Z.of_nat (length (Index.accepted outcomes)))%Z ->
  exists st,
    Index.run_loop N outcomes Index.initial = Some st
    /\ (forall (k : nat) (r : Index.RunnerResult),
           Index.accepted outcomes !! k = Some r ->
           (Z.of_nat k < N)%Z ->
           exists pre post,
             Index.trace st
             = pre ++ [Index.RunBarIncrement; Index.Lighthouse;
                       Index.WriteFile (Z.of_nat k) (Index.report r)] ++ post)
    /\ (Forall (fun o => Index.rerun o = false) outcomes ->
        Z.of_nat (Progress.increments (Index.trace st)) = N).
Proof.
  intros HN Hlen.
  destruct (run_loop_accepts N outcomes Index.initial)
    as (st & Hrun & _); simpl; try lia.
  exists st. split; [assumption|]. split.
  - intros k r Hk Hlt.
    destruct (run_loop_trace N outcomes _ _ Hrun) as [_ Hpat].
    apply (Hpat k r Hk). simpl. lia.
  - intros Hok.
    rewrite (run_loop_increments N outcomes Hok _ _ Hrun) by (simpl; lia).
    change (Progress.increments (Index.trace Index.initial)) with 0%nat.
    change (Index.i Index.initial) with 0%Z. lia.
Qed.

Lemma increment_precedes_each_accepted_run_witness :
  let ok := ok_run "report" [("m", Some 1)] in
  let outcomes := [Some failed_run; Some ok] in
  (0 <= 1)%Z
  /\ (1 <= Z.of_nat (length (Index.accepted outcomes)))%Z
  /\ exists st,
       Index.run_loop 1 outcomes Index.initial = Some st
       /\ exists pre post,
            Index.trace st
            = pre ++ [Index.RunBarIncrement; Index.Lighthouse;
                      Index.WriteFile 0 "report"] ++ post.
Proof.
  intros ok outcomes.
  assert (H0 : (0 <= 1)%Z) by lia.
  assert (H1 : (1 <= Z.of_nat (length (Index.accepted outcomes)))%Z)
    by (vm_compute; discriminate).
  split; [exact H0|]. split; [exact H1|].
  destruct (increment_precedes_each_accepted_run 1 outcomes H0 H1)
    as (st & Hrun & Hpat & _).
  exists st. split; [assumption|].
  apply (Hpat 0%nat ok); [reflexivity | lia].
Defined.

(** C8 as stated fails: with one failed attempt before the accepted run the
    bar is incremented twice for one accepted run, both times before any
    run has been accepted. *)
Lemma increment_not_once_after_accept :
  let ok := ok_run "report" [("m", Some 1)] in
  exists st,
    Index.run_loop 1 [Some failed_run; Some ok] Index.initial = Some st
    /\ Index.trace st
       = [Index.RunBarIncrement; Index.Lighthouse;
          Index.RunBarIncrement; Index.Lighthouse;
          Index.WriteFile 0 "report"]
    /\ length (Index.results st) = 1%nat
    /\ Progress.increments (Index.trace st) = 2%nat
    /\ Progress.increments_follow_accepts 0 (Index.trace st) = false.
Proof. eexists. vm_compute. repeat split; reflexivity. Qed.

(** ** The series the aggregator builds (C5, C6) *)

Section MapFacts.
Context {V : Type}.
Implicit Types (m : list (string * V)) (k : string) (v : V).

Lemma Map_get_set_eq m k v : JS.Map.get (JS.Map.set m k v) k = Some v.
Proof.
  induction m as [|[k' v'] m IH]; simpl.
  - now rewrite String.eqb_refl.
  - destruct (String.eqb_spec k' k) as [->|Hne]; simpl.
    + now rewrite String.eqb_refl.
    + destruct (String.eqb_spec k' k); [contradiction|assumption].
Qed.

Lemma Map_get_set_ne m k k' v :
  k <> k' -> JS.Map.get (JS.Map.set m k v) k' = JS.Map.get m k'.
Proof.
  intros Hne. induction m as [|[k0 v0] m IH]; simpl.
  - destruct (String.eqb_spec k k'); [contradiction|reflexivity].
  - destruct (String.eqb_spec k0 k) as [->|Hne0]; simpl.
    + destruct (String.eqb_spec k k'); [contradiction|reflexivity].
    + now rewrite IH.
Qed.

Lemma Map_get_None m k : JS.Map.get m k = None <-> ~ In k (map fst m).
Proof.
  induction m as [|[k' v'] m IH]; simpl; [tauto|].
  destruct (String.eqb_spec k' k) as [->|Hne].
  - split; [discriminate|tauto].
  - rewrite IH. tauto.
Qed.

Lemma Map_keys_set m k v :
  map fst (JS.Map.set m k v)
  = if JS.Map.has m k then map fst m else map fst m ++ [k].
Proof.
  unfold JS.Map.has. induction m as [|[k' v'] m IH]; simpl; [reflexivity|].
  destruct (String.eqb_spec k' k) as [->|Hne]; simpl; [reflexivity|].
  rewrite IH. now destruct (JS.Map.get m k).
Qed.

Lemma Map_set_NoDup m k v :
  NoDup (map fst m) -> NoDup (map fst (JS.Map.set m k v)).
Proof.
  intros Hm. rewrite Map_keys_set. unfold JS.Map.has.
  destruct (JS.Map.get m k) eqn:Hget; [assumption|].
  apply Map_get_None in Hget.
  apply NoDup_app. split; [assumption|]. split.
  - intros x Hx Hk. apply list_elem_of_In in Hx.
    apply list_elem_of_singleton in Hk. now subst.
  - apply NoDup_singleton.
Qed.

End MapFacts.

Section CollectFacts.
Import ResultsParser Series.

Lemma extend_extend (o : option (list float)) (l1 l2 : list float) :
  extend (extend o l1) l2 = extend o (l1 ++ l2).
Proof.
  destruct l1 as [|x l1], l2 as [|y l2]; simpl; try reflexivity.
  - now rewrite app_nil_r.
  - now rewrite <- app_assoc.
Qed.

Lemma collect_entry_get (acc : list (string * list float))
    (entry : string * AuditResult) (name : string) :
  JS.Map.get (collect_entry acc entry) name
  = extend (JS.Map.get acc name) (contribution name entry).
Proof.
  destruct entry as [k a]. unfold collect_entry, contribution. cbn [fst snd].
  destruct (numericValue a) as [v|]; [|reflexivity].
  destruct (JS.ToBoolean (Some v)); [|reflexivity]. cbn [andb].
  unfold JS.Map.has.
  destruct (JS.Map.get acc k) as [series|] eqn:Hget; simpl.
  - rewrite Hget.
    destruct (String.eqb_spec k name) as [->|Hne]; simpl.
    + now rewrite Map_get_set_eq, Hget.
    + now rewrite Map_get_set_ne.
  - rewrite Map_get_set_eq.
    destruct (String.eqb_spec k name) as [->|Hne]; simpl.
    + now rewrite Map_get_set_eq, Hget.
    + now rewrite !Map_get_set_ne.
Qed.

Lemma collect_entries_get (entries : list (string * AuditResult))
    (acc : list (string * list float)) (name : string) :
  JS.Map.get (fold_left collect_entry entries acc) name
  = extend (JS.Map.get acc name) (flat_map (contribution name) entries).
Proof.
  revert acc. induction entries as [|e entries IH]; intros acc; simpl.
  - reflexivity.
  - now rewrite IH, collect_entry_get, extend_extend.
Qed.

Lemma collect_from_get (results : list Result)
    (acc : list (string * list float)) (name : string) :
  JS.Map.get
    (fold_left (fun series result => fold_left collect_entry (audits result) series)
       results acc) name
  = extend (JS.Map.get acc name) (of_runs name results).
Proof.
  revert acc. induction results as [|r results IH]; intros acc; simpl.
  - reflexivity.
  - now rewrite IH, collect_entries_get, extend_extend.
Qed.

(** The [Map] of the first loop holds, for every metric, the values that
    pass the truthiness test, in the order of the runs, and no entry for a
    metric without such a value. *)
Lemma collect_get (results : list Result) (name : string) :
  JS.Map.get (collect results) name
  = match of_runs name results with
    | [] => None
    | series => Some series
    end.
Proof.
  unfold collect. rewrite collect_from_get. simpl.
  now destruct (of_runs name results).
Qed.

Lemma collect_entry_NoDup (acc : list (string * list float))
    (entry : string * AuditResult) :
  NoDup (map fst acc) -> NoDup (map fst (collect_entry acc entry)).
Proof.
  intros Hacc. destruct entry as [k a]. unfold collect_entry.
  destruct (numericValue a) as [v|]; [|assumption].
  destruct (JS.ToBoolean (Some v)); [|assumption].
  destruct (negb (JS.Map.has acc k)).
  - destruct (JS.Map.get (JS.Map.set acc k []) k);
      auto using Map_set_NoDup.
  - destruct (JS.Map.get acc k); auto using Map_set_NoDup.
Qed.

Lemma collect_NoDup (results : list Result) :
  NoDup (map fst (collect results)).
Proof.
  unfold collect.
  assert (H : NoDup (map fst ([] : list (string * list float))))
    by constructor.
  revert H. generalize ([] : list (string * list float)).
  induction results as [|r results IH]; intros acc Hacc; simpl; [assumption|].
  apply IH. clear IH. revert acc Hacc.
  induction (audits r) as [|e entries IHe]; intros acc Hacc; simpl;
    [assumption|].
  apply IHe. now apply collect_entry_NoDup.
Qed.

Lemma fill_lookup (f : list float -> Summary)
    (series : list (string * list float)) (o : gmap string Summary)
    (name : string) :
  name <> "__proto__" ->
  NoDup (map fst series) ->
  fold_left (fun parsedResults '(audit, values) =>
               JS.set_property parsedResults audit (f values)) series o
  !! name
  = match JS.Map.get series name with
    | Some values => Some (f values)
    | None => o !! name
    end.
Proof.
  intros Hname. revert o.
  induction series as [|[k vs] series IH]; intros o Hnd; simpl; [reflexivity|].
  inversion Hnd as [|? ? Hk Hnd']; subst.
  rewrite IH by assumption.
  destruct (String.eqb_spec k name) as [->|Hne].
  - rewrite list_elem_of_In in Hk. apply Map_get_None in Hk. rewrite Hk.
    unfold JS.set_property. rewrite decide_False by assumption.
    apply lookup_insert_eq.
  - destruct (JS.Map.get series name); [reflexivity|].
    unfold JS.set_property. destruct (decide (k = "__proto__")); [reflexivity|].
    now apply lookup_insert_ne.
Qed.

(** The summary of a metric is computed from its series. *)
Lemma parseResults_lookup (results : list Result) (name : string) :
  name <> "__proto__" ->
  parseResults results !! name
  = match of_runs name results with
    | [] => None
    | series => Some (summarize series)
    end.
Proof.
  intros Hname. unfold parseResults.
  rewrite fill_lookup by (auto using collect_NoDup).
  rewrite collect_get, lookup_empty.
  now destruct (of_runs name results).
Qed.

Lemma calculateMedian_array (values : list float) :
  snd (calculateMedian values) = JS.sort JS.default_compare values.
Proof.
  unfold calculateMedian.
  now destruct (Z.of_nat (length (JS.sort JS.default_compare values)) mod 2 =? 0)%Z.
Qed.

(** The array in the property [values] has been sorted as strings, three
    times over. *)
Lemma summarize_values (series : list float) :
  values (summarize series)
  = JS.sort JS.default_compare
      (JS.sort JS.default_compare (JS.sort JS.default_compare series)).
Proof.
  unfold summarize.
  destruct (calculateMedian series) as [median sorted] eqn:Hmedian.
  apply (f_equal snd) in Hmedian. rewrite calculateMedian_array in Hmedian.
  simpl in Hmedian. subst sorted. reflexivity.
Qed.

(** A metric has a summary exactly when some run holds a value for it that
    passes the truthiness test; the array of the summary then holds these
    values, as many as there are, in the order the string sort gives. *)
Lemma parseResults_summary (results : list Result) (name : string) :
  name <> "__proto__" ->
  (is_Some (parseResults results !! name) <-> of_runs name results <> [])
  /\ (forall summary,
         parseResults results !! name = Some summary ->
         length (values summary) = length (of_runs name results)
         /\ Permutation (values summary) (of_runs name results)).
Proof.
  intros Hname. rewrite parseResults_lookup by assumption.
  destruct (of_runs name results) as [|x series] eqn:Hseries; split.
  - split; [intros [? ?]; discriminate | congruence].
  - discriminate.
  - split; [discriminate | eauto].
  - intros summary [= <-]. rewrite summarize_values.
    split.
    + now rewrite !sort_length.
    + now rewrite !sort_perm.
Qed.

End CollectFacts.

(** C5: a metric that only ever reports the value 0 gets no summary, though
    runs contribute a numeric value for it; and a metric reported by two of
    three runs, once with the value 0, gets a series of length one. *)
Theorem parseResults_omits_zero_metric :
  let zero_only := [result_of [("m", Some 0); ("n", Some 7)];
                    result_of [("m", Some 0)]] in
  let two_of_three := [result_of [("m", Some 0)]; result_of [("m", Some 4)];
                       result_of [("n", Some 7)]] in
  Series.reporting_runs "m" zero_only = 2%nat
  /\ ResultsParser.parseResults zero_only !! "m" = None
  /\ is_Some (ResultsParser.parseResults zero_only !! "n")
  /\ Series.reporting_runs "m" two_of_three = 2%nat
  /\ JS.Map.get (ResultsParser.collect two_of_three) "m" = Some [4]
  /\ ResultsParser.values <$> (ResultsParser.parseResults two_of_three !! "m")
     = Some [4].
Proof.
  vm_compute. repeat split; try reflexivity. eexists; reflexivity.
Qed.

(** C6: the array in the summary is not in run order. Two runs report 2 and
    then 10: the series is built as 2, 10, and the summary lists 10, 2;
    three runs that report 3, 1, 2 are listed as 1, 2, 3. *)
Theorem parseResults_values_sorted_in_place :
  let runs := [result_of [("m", Some 2)]; result_of [("m", Some 10)]] in
  let runs' := [result_of [("m", Some 3)]; result_of [("m", Some 1)];
                result_of [("m", Some 2)]] in
  JS.Map.get (ResultsParser.collect runs) "m" = Some [2; 10]
  /\ ResultsParser.values <$> (ResultsParser.parseResults runs !! "m")
     = Some [10; 2]
  /\ JS.Map.get (ResultsParser.collect runs') "m" = Some [3; 1; 2]
  /\ ResultsParser.values <$> (ResultsParser.parseResults runs' !! "m")
     = Some [1; 2; 3].
Proof. vm_compute. repeat split; reflexivity. Qed.

(** ** The rows of the CSV report (C7) *)

Section SortedFacts.
Context {A : Type} (cmp : A -> A -> Z).
Hypothesis cmp_total : forall a b, (cmp a b <= 0)%Z \/ (cmp b a <= 0)%Z.
Hypothesis cmp_trans :
  forall a b c, (cmp a b <= 0)%Z -> (cmp b c <= 0)%Z -> (cmp a c <= 0)%Z.

Lemma insert_sorted (x : A) (l : list A) :
  StronglySorted (fun a b => (cmp a b <= 0)%Z) l ->
  StronglySorted (fun a b => (cmp a b <= 0)%Z) (JS.insert cmp x l).
Proof.
  induction 1 as [|y l Hl IH Hy]; simpl.
  - repeat constructor.
  - destruct (Z.leb_spec (cmp x y) 0) as [Hxy|Hxy].
    + constructor; [now constructor|].
      constructor; [assumption|].
      eapply Forall_impl; [exact Hy|]. intros z Hz. now apply cmp_trans with y.
    + constructor; [assumption|].
      rewrite insert_perm. constructor; [|assumption].
      destruct (cmp_total x y); [lia | assumption].
Qed.

Lemma sort_sorted (l : list A) :
  StronglySorted (fun a b => (cmp a b <= 0)%Z) (JS.sort cmp l).
Proof.
  induction l as [|x l IH]; simpl; [constructor | now apply insert_sorted].
Qed.

End SortedFacts.

Section CsvFacts.
Import ResultsParser Columns.

Lemma leb_trans (a b c : string) :
  String.leb a b = true -> String.leb b c = true -> String.leb a c = true.
Proof.
  intros Hab Hbc.
  destruct (String.compare a b) eqn:Cab.
  - apply String.compare_eq_iff in Cab. now subst.
  - destruct (String.compare b c) eqn:Cbc.
    + apply String.compare_eq_iff in Cbc. now subst.
    + apply String_as_OT.cmp_lt in Cab, Cbc.
      pose proof (String_as_OT.lt_trans _ _ _ Cab Cbc) as Cac.
      apply String_as_OT.cmp_lt in Cac. unfold String_as_OT.cmp in Cac.
      unfold String.leb. now rewrite Cac.
    + unfold String.leb in Hbc. rewrite Cbc in Hbc. discriminate.
  - unfold String.leb in Hab. rewrite Cab in Hab. discriminate.
Qed.

Lemma leb_ltb (a b : string) :
  String.leb a b = true -> a <> b -> String.ltb a b = true.
Proof.
  unfold String.leb, String.ltb.
  destruct (String.compare a b) eqn:Hab; try discriminate; auto.
  apply String.compare_eq_iff in Hab. contradiction.
Qed.

Lemma of_entries_In (entries : list (string * AuditResult)) name v :
  In (name, v) (of_entries entries)
  <-> In (name, {| numericValue := Some v |}) entries.
Proof.
  unfold of_entries. rewrite <- !list_elem_of_In, list_elem_of_omap.
  split.
  - intros ([k [[x|]]] & Hin & Heq); simpl in Heq; [|discriminate].
    now injection Heq as -> ->.
  - intros Hin. eexists. split; [exact Hin|reflexivity].
Qed.

Lemma of_entries_keys (entries : list (string * AuditResult)) :
  map fst (of_entries entries)
  = map fst (filter (fun entry => bool_decide (numericValue (snd entry) <> None))
               entries).
Proof.
  unfold of_entries.
  induction entries as [|[k [[x|]]] entries IH]; [reflexivity|..].
  - rewrite filter_cons_True by (apply bool_decide_pack; discriminate).
    simpl. f_equal. exact IH.
  - rewrite filter_cons_False; [exact IH|].
    intros H. apply bool_decide_unpack in H. now apply H.
Qed.

Lemma of_entries_values (entries : list (string * AuditResult)) :
  map (fun column => JS.Number_toString (snd column)) (of_entries entries)
  = map (fun v => match v with
                  | Some x => JS.Number_toString x
                  | None => EmptyString
                  end)
      (map (fun entry => numericValue (snd entry))
         (filter (fun entry => bool_decide (numericValue (snd entry) <> None))
            entries)).
Proof.
  unfold of_entries.
  induction entries as [|[k [[x|]]] entries IH]; [reflexivity|..].
  - rewrite filter_cons_True by (apply bool_decide_pack; discriminate).
    simpl. f_equal. exact IH.
  - rewrite filter_cons_False; [exact IH|].
    intros H. apply bool_decide_unpack in H. now apply H.
Qed.

Lemma of_entries_sorted (R : string -> string -> Prop)
    (entries : list (string * AuditResult)) :
  StronglySorted R (map fst entries) ->
  StronglySorted R (map fst (of_entries entries)).
Proof.
  unfold of_entries.
  induction entries as [|[k [[x|]]] entries IH]; simpl; intros Hs;
    [constructor|..]; apply StronglySorted_inv in Hs as [Hs Hk]; auto.
  constructor; [auto|].
  rewrite Forall_forall in Hk |- *. intros k' Hk'. apply Hk.
  apply list_elem_of_In in Hk'. apply list_elem_of_In.
  apply in_map_iff in Hk' as ([k'' v] & <- & Hin).
  apply of_entries_In in Hin. apply in_map_iff. eexists. split; [|exact Hin].
  reflexivity.
Qed.

Lemma NoDup_keys_eq {V} (l : list (string * V)) (a b : string * V) :
  NoDup (map fst l) -> In a l -> In b l -> fst a = fst b -> a = b.
Proof.
  induction l as [|c l IH]; simpl; [contradiction|].
  intros Hnd [->|Ha] [->|Hb] Hab; auto; inversion Hnd as [|? ? Hc Hnd']; subst.
  - exfalso. apply Hc. rewrite Hab. apply list_elem_of_In, in_map, Hb.
  - exfalso. apply Hc. rewrite <- Hab. apply list_elem_of_In, in_map, Ha.
  - auto.
Qed.

End CsvFacts.

Section SortedOn.
Context {A : Type} (cmp : A -> A -> Z) (dom : A -> Prop).
Hypothesis cmp_total_on :
  forall a b, dom a -> dom b -> (cmp a b <= 0)%Z \/ (cmp b a <= 0)%Z.
Hypothesis cmp_trans_on :
  forall a b c, dom a -> dom b -> dom c ->
    (cmp a b <= 0)%Z -> (cmp b c <= 0)%Z -> (cmp a c <= 0)%Z.

Lemma insert_sorted_on (x : A) (l : list A) :
  dom x -> Forall dom l ->
  StronglySorted (fun a b => (cmp a b <= 0)%Z) l ->
  StronglySorted (fun a b => (cmp a b <= 0)%Z) (JS.insert cmp x l).
Proof.
  intros Hx Hl Hs. induction Hs as [|y l Hs IH Hy]; simpl.
  - repeat constructor.
  - apply Forall_cons in Hl as [Hdy Hl].
    destruct (Z.leb_spec (cmp x y) 0) as [Hxy|Hxy].
    + constructor; [now constructor|].
      constructor; [assumption|].
      rewrite Forall_forall in Hy. rewrite Forall_forall in Hl.
      apply Forall_forall. intros z Hz.
      apply (cmp_trans_on x y z); auto.
    + constructor; [now apply IH|].
      rewrite insert_perm. constructor; [|assumption].
      destruct (cmp_total_on x y Hx Hdy); [lia | assumption].
Qed.

Lemma sort_sorted_on (l : list A) :
  Forall dom l ->
  StronglySorted (fun a b => (cmp a b <= 0)%Z) (JS.sort cmp l).
Proof.
  induction l as [|x l IH]; simpl; intros Hl; [constructor|].
  apply Forall_cons in Hl as [Hx Hl].
  apply insert_sorted_on; auto. now rewrite sort_perm.
Qed.

End SortedOn.

Section OrderedRows.
Import ResultsParser Columns Collation.

Lemma map_fst_sorted {V} (R : string -> string -> Prop)
    (l : list (string * V)) :
  StronglySorted (fun a b => R a.1 b.1) l -> StronglySorted R (map fst l).
Proof.
  induction 1 as [|a l Hl IH Ha]; simpl; constructor; [assumption|].
  rewrite Forall_forall in Ha. apply Forall_forall. intros k Hk.
  apply list_elem_of_In, in_map_iff in Hk as (b & <- & Hb).
  apply Ha, list_elem_of_In, Hb.
Qed.

Lemma of_entries_keys_In (entries : list (string * AuditResult)) (name : string) :
  In name (map fst (of_entries entries)) -> In name (map fst entries).
Proof.
  rewrite !in_map_iff. intros ([k v] & <- & Hin).
  apply of_entries_In in Hin. eexists. split; [|exact Hin]. reflexivity.
Qed.

Lemma of_entries_NoDup (entries : list (string * AuditResult)) :
  NoDup (map fst entries) -> NoDup (map fst (of_entries entries)).
Proof.
  induction entries as [|[k [[x|]]] entries IH]; intros Hnd;
    [constructor| |];
    inversion Hnd as [|? ? Hk Hnd']; subst; [|now apply IH].
  change (NoDup (k :: map fst (of_entries entries))).
  constructor; [|now apply IH].
  intros Hin. apply Hk. apply list_elem_of_In.
  apply of_entries_keys_In. now apply list_elem_of_In.
Qed.

Lemma lexicographic_leb (localeCompare : string -> string -> Z)
    (names : list string) (a b : string) :
  lexicographic_on localeCompare names -> In a names -> In b names ->
  (localeCompare a b <= 0)%Z <-> String.leb a b = true.
Proof.
  intros Hlex Ha Hb. pose proof (Hlex a b Ha Hb) as H.
  unfold JS.code_unit_compare, String.leb in *.
  destruct (String.compare a b); simpl in H; split; auto; try lia;
    discriminate.
Qed.

(** A comparison that agrees with the code units on the names is a total
    order on them. *)
Lemma lexicographic_total_order (localeCompare : string -> string -> Z)
    (names : list string) :
  lexicographic_on localeCompare names -> total_order_on localeCompare names.
Proof.
  intros Hlex. repeat split.
  - intros a b Ha Hb. rewrite !(lexicographic_leb _ names) by assumption.
    apply String.leb_total.
  - intros a b c Ha Hb Hc. rewrite !(lexicographic_leb _ names) by assumption.
    apply leb_trans.
  - intros a b Ha Hb. rewrite !(lexicographic_leb _ names) by assumption.
    apply String.leb_antisym.
Qed.

Lemma lexicographic_strict (localeCompare : string -> string -> Z)
    (names l : list string) :
  lexicographic_on localeCompare names ->
  (forall x, In x l -> In x names) ->
  NoDup l ->
  StronglySorted (fun a b => (localeCompare a b <= 0)%Z) l ->
  StronglySorted lex_lt l.
Proof.
  intros Hlex. induction l as [|x l IH]; intros Hin Hnd Hs; [constructor|].
  inversion Hnd as [|? ? Hx Hnd']; subst.
  apply StronglySorted_inv in Hs as [Hs Hall].
  constructor; [apply IH; auto; intros y Hy; apply Hin; now right|].
  rewrite Forall_forall in Hall. apply Forall_forall. intros y Hy.
  apply leb_ltb.
  - apply (lexicographic_leb localeCompare names); auto.
    + apply Hin. now left.
    + apply Hin. right. now apply list_elem_of_In.
  - intros ->. contradiction.
Qed.

Lemma total_order_on_incl (localeCompare : string -> string -> Z)
    (names names' : list string) :
  (forall name, In name names' -> In name names) ->
  total_order_on localeCompare names -> total_order_on localeCompare names'.
Proof.
  intros Hincl (Htotal & Htrans & Hanti). repeat split.
  - intros a b Ha Hb. apply Htotal; auto.
  - intros a b c Ha Hb Hc. apply Htrans; auto.
  - intros a b Ha Hb. apply Hanti; auto.
Qed.

Lemma total_order_check_sound (localeCompare : string -> string -> Z)
    (names : list string) :
  total_order_check localeCompare names = true ->
  total_order_on localeCompare names.
Proof.
  unfold total_order_check. rewrite forallb_forall. intros Hcheck.
  assert (H : forall a b, In a names -> In b names ->
            ((localeCompare a b <= 0)%Z \/ (localeCompare b a <= 0)%Z)
            /\ ((localeCompare a b <= 0)%Z -> (localeCompare b a <= 0)%Z ->
                a = b)
            /\ (forall c, In c names ->
                  (localeCompare a b <= 0)%Z -> (localeCompare b c <= 0)%Z ->
                  (localeCompare a c <= 0)%Z)).
  { intros a b Ha Hb. specialize (Hcheck a Ha).
    rewrite forallb_forall in Hcheck. specialize (Hcheck b Hb).
    apply andb_prop in Hcheck as [[Htotal Hanti]%andb_prop Htrans].
    split; [|split].
    - apply orb_prop in Htotal as [H|H]; apply Z.leb_le in H; auto.
    - intros Hab Hba. apply Z.leb_le in Hab, Hba.
      rewrite Hab, Hba in Hanti. now apply String.eqb_eq.
    - intros c Hc Hab Hbc. rewrite forallb_forall in Htrans.
      specialize (Htrans c Hc). apply Z.leb_le in Hab, Hbc.
      rewrite Hab, Hbc in Htrans. now apply Z.leb_le. }
  repeat split.
  - intros a b Ha Hb. now apply H.
  - intros a b c Ha Hb Hc. destruct (H a b Ha Hb) as (_ & _ & Ht). now apply Ht.
  - intros a b Ha Hb. now apply H.
Qed.

Variable localeCompare : string -> string -> Z.
Variable names : list string.
Hypothesis names_ordered : total_order_on localeCompare names.

Lemma entries_sorted_on (entries : list (string * AuditResult)) :
  (forall name, In name (map fst entries) -> In name names) ->
  StronglySorted (fun a b => (localeCompare a.1 b.1 <= 0)%Z)
    (JS.sort (fun a b => localeCompare a.1 b.1) entries).
Proof.
  intros Hin. destruct names_ordered as (Htotal & Htrans & _).
  apply (sort_sorted_on _ (fun entry => In entry.1 names)).
  - intros a b. apply Htotal.
  - intros a b c. apply Htrans.
  - apply Forall_forall. intros entry Hentry.
    apply Hin, in_map. now apply list_elem_of_In.
Qed.

Lemma columns_sorted_on (entries : list (string * AuditResult)) :
  (forall name, In name (map fst entries) -> In name names) ->
  StronglySorted (fun a b => (localeCompare a b <= 0)%Z)
    (map fst (of_entries (JS.sort (fun a b => localeCompare a.1 b.1) entries))).
Proof.
  intros Hin. apply of_entries_sorted.
  apply (map_fst_sorted (fun a b => (localeCompare a b <= 0)%Z)).
  now apply entries_sorted_on.
Qed.

Lemma entries_sort_unique_on (entries entries' : list (string * AuditResult)) :
  (forall name, In name (map fst entries) -> In name names) ->
  NoDup (map fst entries) ->
  Permutation entries' entries ->
  JS.sort (fun a b => localeCompare a.1 b.1) entries'
  = JS.sort (fun a b => localeCompare a.1 b.1) entries.
Proof.
  intros Hin Hnd Hperm.
  assert (Hin' : forall name, In name (map fst entries') -> In name names).
  { intros name Hname. apply Hin.
    eapply Permutation_in; [|exact Hname]. now apply Permutation_map. }
  assert (Hmem : forall l a,
             Permutation l entries ->
             a ∈ JS.sort (fun a b => localeCompare a.1 b.1) l -> In a entries).
  { intros l a Hl Ha. apply list_elem_of_In in Ha.
    eapply Permutation_in; [|exact Ha]. now rewrite sort_perm. }
  eapply StronglySorted_unique_strong;
    [|now apply entries_sorted_on|now apply entries_sorted_on|].
  - intros a b Ha Hb Hab Hba. simpl in Hab, Hba.
    apply Hmem in Ha; [|assumption]. apply Hmem in Hb; [|reflexivity].
    apply (NoDup_keys_eq entries); auto.
    destruct names_ordered as (_ & _ & Hanti).
    apply Hanti; auto; apply Hin, in_map; assumption.
  - now rewrite !sort_perm.
Qed.

End OrderedRows.

(** C7, as the code has it: the row of a result has one column for each
    metric whose numeric value is defined (0 included) and no other; the
    header is the names and the value line the values of the same columns,
    comma-joined. The columns are in the order [localeCompare] gives the
    names, whenever it is a total order on them, and the row is then the
    same for every order in which the result lists its audits. For a
    result on whose metric names [localeCompare] agrees with the comparison
    by code units, that order is the strictly ascending lexicographic
    one. *)
Theorem resultToCsv_columns (localeCompare : string -> string -> Z)
    (result : ResultsParser.Result) :
  let names := map fst (ResultsParser.audits result) in
  exists columns : list (string * float),
    (forall name v,
        In (name, v) columns
        <-> In (name, {| ResultsParser.numericValue := Some v |})
              (ResultsParser.audits result))
    /\ ResultsParser.header (ResultsParser.resultToCsv localeCompare result)
       = String.concat "," (map fst columns)
    /\ ResultsParser.values_line (ResultsParser.resultToCsv localeCompare result)
       = String.concat ","
           (map (fun column => JS.Number_toString (snd column)) columns)
    /\ (Collation.total_order_on localeCompare names ->
        StronglySorted (fun a b => (localeCompare a b <= 0)%Z)
          (map fst columns)
        /\ (NoDup names ->
            forall result',
              Permutation (ResultsParser.audits result')
                (ResultsParser.audits result) ->
              ResultsParser.resultToCsv localeCompare result'
              = ResultsParser.resultToCsv localeCompare result))
    /\ (Collation.lexicographic_on localeCompare names ->
        NoDup names ->
        StronglySorted Columns.lex_lt (map fst columns)
        /\ forall result',
             Permutation (ResultsParser.audits result')
               (ResultsParser.audits result) ->
             ResultsParser.resultToCsv localeCompare result'
             = ResultsParser.resultToCsv localeCompare result).
Proof.
  intros names.
  set (sorted := JS.sort (fun a b => localeCompare a.1 b.1)
                   (ResultsParser.audits result)).
  assert (Hsorted : Permutation sorted (ResultsParser.audits result))
    by apply sort_perm.
  assert (Hordered : Collation.total_order_on localeCompare names ->
            StronglySorted (fun a b => (localeCompare a b <= 0)%Z)
              (map fst (Columns.of_entries sorted))
            /\ (NoDup names ->
                forall result',
                  Permutation (ResultsParser.audits result')
                    (ResultsParser.audits result) ->
                  ResultsParser.resultToCsv localeCompare result'
                  = ResultsParser.resultToCsv localeCompare result)).
  { intros Horder. split.
    - apply (columns_sorted_on localeCompare names Horder). auto.
    - intros Hnd result' Hperm. unfold ResultsParser.resultToCsv.
      rewrite (entries_sort_unique_on localeCompare names Horder
                 _ _ (fun _ H => H) Hnd Hperm).
      reflexivity. }
  exists (Columns.of_entries sorted).
  split; [|split; [|split; [|split]]].
  - intros name v. rewrite of_entries_In.
    split; apply Permutation_in; [|symmetry]; exact Hsorted.
  - unfold ResultsParser.resultToCsv. simpl. now rewrite of_entries_keys.
  - unfold ResultsParser.resultToCsv, JS.join. simpl.
    now rewrite of_entries_values.
  - exact Hordered.
  - intros Hlex Hnd.
    destruct (Hordered (lexicographic_total_order _ _ Hlex)) as [Hs Hind].
    split; [|now apply Hind].
    apply (lexicographic_strict localeCompare names); auto.
    + intros x Hx. apply of_entries_keys_In in Hx.
      eapply Permutation_in; [|exact Hx]. now apply Permutation_map.
    + apply of_entries_NoDup.
      rewrite (Permutation_map fst Hsorted). exact Hnd.
Qed.

Lemma resultToCsv_columns_witness :
  let result := result_of [("tti", Some 2.5); ("cls", Some 0);
                           ("screenshot", None); ("fcp", Some 810)] in
  let names := map fst (ResultsParser.audits result) in
  Collation.lexicographic_on Collation.letters_compare names
  /\ NoDup names
  /\ ResultsParser.resultToCsv Collation.letters_compare result
     = {| ResultsParser.header := "cls,fcp,tti";
          ResultsParser.values_line := "0,810,2.5" |}
  /\ exists columns : list (string * float),
       (In ("cls", 0) columns
        <-> In ("cls", {| ResultsParser.numericValue := Some 0 |})
              (ResultsParser.audits result))
       /\ StronglySorted Columns.lex_lt (map fst columns)
       /\ ResultsParser.header
            (ResultsParser.resultToCsv Collation.letters_compare result)
          = String.concat "," (map fst columns).
Proof.
  intros result names.
  assert (Hlex : Collation.lexicographic_on Collation.letters_compare names).
  { intros a b Ha Hb. simpl in Ha, Hb.
    repeat (destruct Ha as [<-|Ha]; [|]);
      try contradiction;
      repeat (destruct Hb as [<-|Hb]; [|]);
      try contradiction; vm_compute; reflexivity. }
  assert (Hnd : NoDup names) by (apply (bool_decide_unpack _); vm_compute; exact I).
  split; [exact Hlex|]. split; [exact Hnd|].
  split; [vm_compute; reflexivity|].
  destruct (resultToCsv_columns Collation.letters_compare result)
    as (columns & Hin & Hheader & _ & _ & Hlexsorted).
  exists columns. split; [apply Hin|].
  split; [apply (Hlexsorted Hlex Hnd) | exact Hheader].
Defined.

(** C7 as stated fails: a comparison that puts a before B, as the
    collation of a host does, gives the result with the metrics B and a the
    header a,B, where the lexicographic order of the names is B, a. *)
Lemma resultToCsv_not_lexicographic :
  let result := result_of [("B", Some 1); ("a", Some 2)] in
  (Collation.letters_compare "a" "B" < 0)%Z
  /\ ResultsParser.resultToCsv Collation.letters_compare result
     = {| ResultsParser.header := "a,B"; ResultsParser.values_line := "2,1" |}
  /\ Columns.lex_lt "B" "a"
  /\ ~ StronglySorted Columns.lex_lt ["a"; "B"]
  /\ ResultsParser.header
       (ResultsParser.resultToCsv JS.code_unit_compare result) = "B,a".
Proof.
  cbn zeta. split; [reflexivity|]. split; [vm_compute; reflexivity|].
  split; [reflexivity|]. split; [|vm_compute; reflexivity].
  intros Hs. apply StronglySorted_inv in Hs as [_ Hs].
  apply Forall_cons in Hs as [Hs _]. discriminate Hs.
Qed.

(** * Further properties of the aggregator *)

(** ** What the sort without comparator leaves behind *)

Section DefaultSort.

Lemma code_unit_compare_le (a b : string) :
  (JS.code_unit_compare a b <= 0)%Z <-> String.leb a b = true.
Proof.
  unfold JS.code_unit_compare, String.leb.
  destruct (String.compare a b); simpl; split; auto; try lia; discriminate.
Qed.

Lemma default_compare_total (x y : float) :
  (JS.default_compare x y <= 0)%Z \/ (JS.default_compare y x <= 0)%Z.
Proof.
  unfold JS.default_compare. rewrite !code_unit_compare_le.
  apply String.leb_total.
Qed.

Lemma default_compare_trans (x y z : float) :
  (JS.default_compare x y <= 0)%Z ->
  (JS.default_compare y z <= 0)%Z ->
  (JS.default_compare x z <= 0)%Z.
Proof.
  unfold JS.default_compare. rewrite !code_unit_compare_le. apply leb_trans.
Qed.

Lemma default_sort_sorted (l : list float) :
  StronglySorted (fun x y => (JS.default_compare x y <= 0)%Z)
    (JS.sort JS.default_compare l).
Proof.
  apply sort_sorted; [apply default_compare_total|apply default_compare_trans].
Qed.

(** Sorting a sorted array changes nothing. *)
Lemma sort_sorted_id {A} (cmp : A -> A -> Z) (l : list A) :
  StronglySorted (fun x y => (cmp x y <= 0)%Z) l -> JS.sort cmp l = l.
Proof.
  induction 1 as [|x l Hl IH Hx]; simpl; [reflexivity|].
  rewrite IH. destruct Hx as [|y l' Hy _]; simpl; [reflexivity|].
  now rewrite (proj2 (Z.leb_le _ _) Hy).
Qed.

Lemma default_sort_idempotent (l : list float) :
  JS.sort JS.default_compare (JS.sort JS.default_compare l)
  = JS.sort JS.default_compare l.
Proof. apply sort_sorted_id, default_sort_sorted. Qed.

Lemma StronglySorted_weaken {A} (R R' : A -> A -> Prop) (l : list A) :
  (forall x y, R x y -> R' x y) ->
  StronglySorted R l -> StronglySorted R' l.
Proof.
  intros HR. induction 1 as [|x l Hl IH Hx]; constructor; auto.
  eapply Forall_impl; [exact Hx|]. auto.
Qed.

Lemma calculatePercentile_array (values : list float) (percentile : float) :
  snd (ResultsParser.calculatePercentile values percentile)
  = JS.sort JS.default_compare values.
Proof. reflexivity. Qed.

End DefaultSort.

(** X1: [calculateMedian] and [calculatePercentile] leave the caller's
    array as a permutation of what it was, in ascending order of the decimal
    strings of the numbers; both leave the same array, and a further call of
    either leaves it as it is. *)
Theorem sorting_calls_leave_string_order (values : list float) (p : float) :
  let after := snd (ResultsParser.calculateMedian values) in
  Permutation after values
  /\ StronglySorted
       (fun x y =>
          String.leb (JS.Number_toString x) (JS.Number_toString y) = true)
       after
  /\ snd (ResultsParser.calculatePercentile values p) = after
  /\ snd (ResultsParser.calculateMedian after) = after
  /\ snd (ResultsParser.calculatePercentile after p) = after.
Proof.
  cbn zeta. rewrite !calculateMedian_array, !calculatePercentile_array.
  rewrite default_sort_idempotent.
  split; [apply sort_perm|]. split; [|auto].
  eapply StronglySorted_weaken; [|apply default_sort_sorted].
  intros x y. unfold JS.default_compare. now rewrite code_unit_compare_le.
Qed.

(** X2: in the summary of a series only the average is computed on the
    series in run order. The median is taken from the string-sorted array,
    and every later statistic, as well as the property [values], is computed
    on that sorted array. *)
Theorem summarize_on_sorted_array (series : list float) :
  let sorted := JS.sort JS.default_compare series in
  let summary := ResultsParser.summarize series in
  ResultsParser.average summary = ResultsParser.calculateAverage series
  /\ ResultsParser.median summary = fst (ResultsParser.calculateMedian series)
  /\ ResultsParser.standardDeviation summary
     = ResultsParser.calculateStandardDeviation sorted
  /\ ResultsParser.percentile95 summary
     = fst (ResultsParser.calculatePercentile sorted 95)
  /\ ResultsParser.percentile99 summary
     = fst (ResultsParser.calculatePercentile sorted 99)
  /\ ResultsParser.minMax summary = ResultsParser.calculateMinMax sorted
  /\ ResultsParser.spread summary = ResultsParser.calculateSpread sorted
  /\ ResultsParser.empiricalVariance summary
     = ResultsParser.calculateEmpiricalVariance sorted
  /\ ResultsParser.variationCoefficient summary
     = ResultsParser.calculateVariationCoefficient sorted
  /\ ResultsParser.values summary = sorted.
Proof.
  cbn zeta. unfold ResultsParser.summarize.
  destruct (ResultsParser.calculateMedian series) as [median sorted] eqn:Hm.
  pose proof (calculateMedian_array series) as Hs. rewrite Hm in Hs.
  simpl in Hs. subst sorted.
  unfold ResultsParser.calculatePercentile.
  rewrite !default_sort_idempotent. simpl. repeat split; reflexivity.
Qed.

(** ** The median of a non-empty series *)

(** X3: on a non-empty series the median is a number. For an odd number of
    values it is one of the values; for an even number it is half the sum
    of two of them. *)
Theorem calculateMedian_defined (values : list float) :
  values <> [] ->
  exists m,
    fst (ResultsParser.calculateMedian values) = Some m
    /\ (Nat.odd (length values) = true -> In m values)
    /\ (Nat.even (length values) = true ->
        exists a b, In a values /\ In b values /\ m = (a + b) / 2).
Proof.
  intros Hne. unfold ResultsParser.calculateMedian.
  set (sorted := JS.sort JS.default_compare values).
  assert (Hperm : Permutation sorted values) by apply sort_perm.
  assert (Hlen : length sorted = length values) by apply sort_length.
  assert (Hpos : (1 <= length values)%nat)
    by (destruct values; [congruence | simpl; lia]).
  assert (Hin : forall k v, sorted !! k = Some v -> In v values).
  { intros k v Hk. eapply Permutation_in; [exact Hperm|].
    apply list_elem_of_In. eapply list_elem_of_lookup_2, Hk. }
  rewrite Hlen. remember (length values) as n eqn:Hn.
  replace (Z.of_nat n / 2)%Z with (Z.of_nat (n / 2))
    by (now rewrite Nat2Z.inj_div).
  destruct (Nat.even n) eqn:Heven.
  - apply Nat.even_spec in Heven as [k Hk].
    assert (Hhalf : (n / 2 = k)%nat)
      by (rewrite Hk, Nat.mul_comm; apply Nat.div_mul; lia).
    rewrite (proj2 (Z.eqb_eq _ _))
      by (replace (Z.of_nat n) with (Z.of_nat k * 2)%Z by lia;
          apply Z_mod_mult).
    cbn [fst]. rewrite Hhalf.
    replace (Z.of_nat k - 1)%Z with (Z.of_nat (k - 1)) by lia.
    rewrite !get_lookup.
    destruct (lookup_lt_is_Some_2 sorted (k - 1)) as [a Ha]; [lia|].
    destruct (lookup_lt_is_Some_2 sorted k) as [b Hb]; [lia|].
    rewrite Ha, Hb. exists ((a + b) / 2). split; [reflexivity|]. split.
    + rewrite <- Nat.negb_even.
      rewrite (proj2 (Nat.even_spec n)) by (now exists k). discriminate.
    + intros _. exists a, b. eauto.
  - assert (Hodd : Nat.odd n = true) by (now rewrite <- Nat.negb_even, Heven).
    apply Nat.odd_spec in Hodd as [k Hk].
    rewrite (proj2 (Z.eqb_neq _ _))
      by (replace (Z.of_nat n) with (1 + Z.of_nat k * 2)%Z by lia;
          rewrite Z_mod_plus_full; discriminate).
    cbn [fst]. rewrite get_lookup.
    destruct (lookup_lt_is_Some_2 sorted (n / 2)) as [m Hm].
    { rewrite Hlen. apply Nat.div_lt; lia. }
    exists m. split; [assumption|]. split; [eauto | discriminate].
Qed.

Lemma calculateMedian_defined_witness :
  [7; 30; 100] <> []
  /\ exists m,
       fst (ResultsParser.calculateMedian [7; 30; 100]) = Some m
       /\ In m [7; 30; 100].
Proof.
  assert (Hne : [7; 30; 100] <> []) by discriminate.
  split; [exact Hne|].
  destruct (calculateMedian_defined _ Hne) as (m & Hm & Hodd & _).
  exists m. split; [exact Hm|]. apply Hodd. reflexivity.
Defined.

(** ** The percentiles of a series of up to a thousand values *)

Lemma percentile_index_exact (n : nat) :
  (1 <= n <= 1000)%nat ->
  JS.to_index (JS.Math_ceil (95 / 100 * JS.of_Z (Z.of_nat n)))
  = Some ((95 * Z.of_nat n + 99) / 100)%Z
  /\ JS.to_index (JS.Math_ceil (99 / 100 * JS.of_Z (Z.of_nat n)))
     = Some ((99 * Z.of_nat n + 99) / 100)%Z.
Proof.
  intros Hn.
  assert (H : forallb (fun n =>
            bool_decide
              (JS.to_index (JS.Math_ceil (95 / 100 * JS.of_Z (Z.of_nat n)))
               = Some ((95 * Z.of_nat n + 99) / 100)%Z)
            && bool_decide
                 (JS.to_index (JS.Math_ceil (99 / 100 * JS.of_Z (Z.of_nat n)))
                  = Some ((99 * Z.of_nat n + 99) / 100)%Z))
            (seq 1 1000) = true)
    by (vm_compute; reflexivity).
  rewrite forallb_forall in H.
  specialize (H n). rewrite in_seq in H.
  apply andb_prop in H as [H95 H99]; [|lia].
  split; eapply bool_decide_eq_true_1; eassumption.
Qed.

Section PercentileFacts.
Import ResultsParser.

Lemma calculatePercentile_lookup (values : list float) (p : float) (k : Z) :
  JS.to_index (JS.Math_ceil (p / 100 * JS.length_number values)) = Some k ->
  (0 <= k)%Z ->
  fst (calculatePercentile values p)
  = JS.sort JS.default_compare values !! Z.to_nat k.
Proof.
  intros Hk Hk0. unfold calculatePercentile, JS.get_number. cbn [fst].
  unfold JS.length_number in *. rewrite sort_length, Hk.
  rewrite <- get_lookup. now rewrite Z2Nat.id.
Qed.

End PercentileFacts.

(** X4: for a series of [n] values, [1 <= n <= 1000], a percentile is the
    element at index ceiling(p * n / 100) of the string-sorted array. That
    index is [n] itself, and the result [undefined], when [n < 20] for the
    95th and when [n < 100] for the 99th percentile; from there on the
    result is one of the values. *)
Theorem calculatePercentile_by_length (values : list float) :
  let n := length values in
  let sorted := JS.sort JS.default_compare values in
  (1 <= n <= 1000)%nat ->
  fst (ResultsParser.calculatePercentile values 95)
  = sorted !! Z.to_nat ((95 * Z.of_nat n + 99) / 100)
  /\ fst (ResultsParser.calculatePercentile values 99)
     = sorted !! Z.to_nat ((99 * Z.of_nat n + 99) / 100)
  /\ ((n < 20)%nat -> fst (ResultsParser.calculatePercentile values 95) = None)
  /\ ((n < 100)%nat -> fst (ResultsParser.calculatePercentile values 99) = None)
  /\ ((20 <= n)%nat ->
      exists v, fst (ResultsParser.calculatePercentile values 95) = Some v
                /\ In v values)
  /\ ((100 <= n)%nat ->
      exists v, fst (ResultsParser.calculatePercentile values 99) = Some v
                /\ In v values).
Proof.
  intros n sorted Hn.
  destruct (percentile_index_exact n Hn) as [H95 H99].
  assert (E95 : fst (ResultsParser.calculatePercentile values 95)
                = sorted !! Z.to_nat ((95 * Z.of_nat n + 99) / 100))
    by (apply calculatePercentile_lookup; [exact H95 | apply Z.div_pos; lia]).
  assert (E99 : fst (ResultsParser.calculatePercentile values 99)
                = sorted !! Z.to_nat ((99 * Z.of_nat n + 99) / 100))
    by (apply calculatePercentile_lookup; [exact H99 | apply Z.div_pos; lia]).
  assert (Hlen : length sorted = n) by apply sort_length.
  assert (Hin : forall k v, sorted !! k = Some v -> In v values).
  { intros k v Hk. eapply Permutation_in; [apply sort_perm|].
    apply list_elem_of_In. eapply list_elem_of_lookup_2, Hk. }
  assert (B95 : (95 * Z.of_nat n + 99 < 100 * Z.of_nat n
                 <-> 20 <= Z.of_nat n)%Z) by lia.
  assert (B99 : (99 * Z.of_nat n + 99 < 100 * Z.of_nat n
                 <-> 100 <= Z.of_nat n)%Z) by lia.
  split; [exact E95|]. split; [exact E99|].
  rewrite E95, E99. repeat split.
  - intros Hlt. apply lookup_ge_None. rewrite Hlen.
    apply Nat2Z.inj_le. rewrite Z2Nat.id by (apply Z.div_pos; lia).
    apply Z.div_le_lower_bound; lia.
  - intros Hlt. apply lookup_ge_None. rewrite Hlen.
    apply Nat2Z.inj_le. rewrite Z2Nat.id by (apply Z.div_pos; lia).
    apply Z.div_le_lower_bound; lia.
  - intros Hge.
    destruct (lookup_lt_is_Some_2 sorted
                (Z.to_nat ((95 * Z.of_nat n + 99) / 100))) as [v Hv].
    { rewrite Hlen. apply Nat2Z.inj_lt.
      rewrite Z2Nat.id by (apply Z.div_pos; lia).
      apply Z.div_lt_upper_bound; lia. }
    exists v. eauto.
  - intros Hge.
    destruct (lookup_lt_is_Some_2 sorted
                (Z.to_nat ((99 * Z.of_nat n + 99) / 100))) as [v Hv].
    { rewrite Hlen. apply Nat2Z.inj_lt.
      rewrite Z2Nat.id by (apply Z.div_pos; lia).
      apply Z.div_lt_upper_bound; lia. }
    exists v. eauto.
Qed.

Lemma calculatePercentile_by_length_witness :
  (1 <= length (one_to 40) <= 1000)%nat
  /\ fst (ResultsParser.calculatePercentile (one_to 40) 95) = Some 8
  /\ fst (ResultsParser.calculatePercentile (one_to 40) 99) = None.
Proof.
  assert (Hn : (1 <= length (one_to 40) <= 1000)%nat)
    by (vm_compute; split; repeat constructor).
  split; [exact Hn|].
  destruct (calculatePercentile_by_length (one_to 40) Hn)
    as (E95 & E99 & _ & U99 & _).
  split.
  - rewrite E95. vm_compute. reflexivity.
  - apply U99. vm_compute. repeat constructor.
Defined.

(** ** Minimum and maximum *)

Section FloatOrderFacts.
Import FloatOrder.

Lemma SFleb_key (a b : spec_float) :
  SFleb a b = true
  <-> a <> S754_nan /\ b <> S754_nan /\ key_le (key a) (key b).
Proof.
  unfold SFleb, key_le.
  destruct a as [sa|sa| |sa ma ea], b as [sb|sb| |sb mb eb];
    try destruct sa; try destruct sb; cbn;
    try change (Pos.compare_cont Eq ma mb) with (Pos.compare ma mb);
    try destruct (Z.compare_spec ea eb);
    try destruct (Pos.compare_spec ma mb); cbn;
    (split; [intros Hcmp; try discriminate Hcmp;
             repeat split; try discriminate; lia
            |intros (Hna & Hnb & Hle); try congruence; try reflexivity; lia]).
Qed.

Lemma SFltb_key (a b : spec_float) :
  SFltb a b = true
  <-> a <> S754_nan /\ b <> S754_nan /\ ~ key_le (key b) (key a).
Proof.
  unfold SFltb, key_le.
  destruct a as [sa|sa| |sa ma ea], b as [sb|sb| |sb mb eb];
    try destruct sa; try destruct sb; cbn;
    try change (Pos.compare_cont Eq ma mb) with (Pos.compare ma mb);
    try destruct (Z.compare_spec ea eb);
    try destruct (Pos.compare_spec ma mb); cbn;
    (split; [intros Hcmp; try discriminate Hcmp;
             repeat split; try discriminate; lia
            |intros (Hna & Hnb & Hle); try congruence; try reflexivity; lia]).
Qed.

Lemma is_nan_false (x : float) :
  is_nan x = false <-> Prim2SF x <> S754_nan.
Proof.
  unfold is_nan. rewrite eqb_spec. unfold SFeqb.
  destruct (Prim2SF x) as [s|s| |s m e]; try destruct s; cbn;
    try rewrite Z.compare_refl;
    try change (Pos.compare_cont Eq m m) with (Pos.compare m m);
    try rewrite Pos.compare_refl; cbn; split; congruence.
Qed.

Lemma float_leb_trans (a b c : float) :
  (a <=? b) = true -> (b <=? c) = true -> (a <=? c) = true.
Proof.
  rewrite !leb_spec, !SFleb_key. unfold key_le.
  intros (Ha & Hb & H1) (_ & Hc & H2). repeat split; auto. lia.
Qed.

Lemma float_ltb_leb (a b : float) : (a <? b) = true -> (a <=? b) = true.
Proof.
  rewrite ltb_spec, leb_spec, SFltb_key, SFleb_key. unfold key_le.
  intros (Ha & Hb & H). repeat split; auto. lia.
Qed.

Lemma float_not_ltb (a b : float) :
  is_nan a = false -> is_nan b = false ->
  (a <? b) = false -> (b <=? a) = true.
Proof.
  rewrite !is_nan_false, leb_spec, SFleb_key. intros Ha Hb Hlt.
  repeat split; auto.
  destruct (SFltb (Prim2SF a) (Prim2SF b)) eqn:E;
    [rewrite ltb_spec, E in Hlt; discriminate|].
  assert (H : ~ (Prim2SF a <> S754_nan /\ Prim2SF b <> S754_nan
                 /\ ~ key_le (key (Prim2SF b)) (key (Prim2SF a)))).
  { rewrite <- SFltb_key, E. discriminate. }
  assert (Hdec : key_le (key (Prim2SF b)) (key (Prim2SF a))
                 \/ ~ key_le (key (Prim2SF b)) (key (Prim2SF a)))
    by (unfold key_le; lia).
  tauto.
Qed.

Lemma float_leb_refl (a : float) : is_nan a = false -> (a <=? a) = true.
Proof.
  rewrite is_nan_false, leb_spec, SFleb_key. unfold key_le.
  intros Ha. repeat split; auto. lia.
Qed.

Lemma float_zero_leb (a b : float) :
  is_zero a = true -> is_zero b = true -> (a <=? b) = true.
Proof.
  intros [sa Ha]%is_zero_spec [sb Hb]%is_zero_spec.
  rewrite leb_spec, Ha, Hb. reflexivity.
Qed.

Lemma float_leb_not_nan (a b : float) :
  (a <=? b) = true -> is_nan a = false /\ is_nan b = false.
Proof.
  rewrite leb_spec, SFleb_key, !is_nan_false. tauto.
Qed.

Lemma float_infinity_leb (v : float) :
  (infinity <=? v) = true -> v = infinity.
Proof.
  rewrite leb_spec. intros H. apply Prim2SF_inj.
  replace (Prim2SF infinity) with (S754_infinity false) in * by reflexivity.
  destruct (Prim2SF v) as [s|s| |s m e]; try destruct s; try discriminate H.
  reflexivity.
Qed.

Lemma float_leb_neg_infinity (v : float) :
  (v <=? neg_infinity) = true -> v = neg_infinity.
Proof.
  rewrite leb_spec. intros H. apply Prim2SF_inj.
  replace (Prim2SF neg_infinity) with (S754_infinity true) in * by reflexivity.
  destruct (Prim2SF v) as [s|s| |s m e]; try destruct s; try discriminate H.
  reflexivity.
Qed.

End FloatOrderFacts.

Section MinMaxFacts.

Lemma min_fold (l : list float) :
  forall acc : float,
    is_nan acc = false ->
    Forall (fun v => is_nan v = false) l ->
    let r :=
      fold_left
        (fun lowest x =>
           if is_nan lowest || is_nan x then nan
           else if JS.is_neg_zero x && JS.is_pos_zero lowest then x
           else if (x <? lowest)%float then x
           else lowest) l acc in
    is_nan r = false
    /\ (r = acc \/ In r l)
    /\ (r <=? acc) = true
    /\ (forall v, In v l -> (r <=? v) = true).
Proof.
  induction l as [|x l IH]; intros acc Hacc Hl; cbn zeta; simpl fold_left.
  - repeat split; auto using float_leb_refl; intros v [].
  - apply Forall_cons in Hl as [Hx Hl]. rewrite Hacc, Hx. cbn [orb].
    destruct (JS.is_neg_zero x && JS.is_pos_zero acc) eqn:Hz;
      [|destruct (x <? acc) eqn:Hlt].
    + apply andb_prop in Hz as [[Hzx _]%andb_prop [Hza _]%andb_prop].
      destruct (IH x Hx Hl) as (Hr & Hin & Hle & Hall).
      repeat split;
        [assumption|destruct Hin as [Hin|Hin]; simpl; auto| |].
      * eapply float_leb_trans; [exact Hle|]. now apply float_zero_leb.
      * intros v [<-|Hv]; auto.
    + destruct (IH x Hx Hl) as (Hr & Hin & Hle & Hall).
      repeat split;
        [assumption|destruct Hin as [Hin|Hin]; simpl; auto| |].
      * eapply float_leb_trans; [exact Hle|]. now apply float_ltb_leb.
      * intros v [<-|Hv]; auto.
    + destruct (IH acc Hacc Hl) as (Hr & Hin & Hle & Hall).
      repeat split;
        [assumption|destruct Hin as [Hin|Hin]; simpl; auto|assumption|].
      intros v [<-|Hv]; auto.
      eapply float_leb_trans; [exact Hle|]. now apply float_not_ltb.
Qed.

Lemma max_fold (l : list float) :
  forall acc : float,
    is_nan acc = false ->
    Forall (fun v => is_nan v = false) l ->
    let r :=
      fold_left
        (fun highest x =>
           if is_nan highest || is_nan x then nan
           else if JS.is_pos_zero x && JS.is_neg_zero highest then x
           else if (highest <? x)%float then x
           else highest) l acc in
    is_nan r = false
    /\ (r = acc \/ In r l)
    /\ (acc <=? r) = true
    /\ (forall v, In v l -> (v <=? r) = true).
Proof.
  induction l as [|x l IH]; intros acc Hacc Hl; cbn zeta; simpl fold_left.
  - repeat split; auto using float_leb_refl; intros v [].
  - apply Forall_cons in Hl as [Hx Hl]. rewrite Hacc, Hx. cbn [orb].
    destruct (JS.is_pos_zero x && JS.is_neg_zero acc) eqn:Hz;
      [|destruct (acc <? x) eqn:Hlt].
    + apply andb_prop in Hz as [[Hzx _]%andb_prop [Hza _]%andb_prop].
      destruct (IH x Hx Hl) as (Hr & Hin & Hle & Hall).
      repeat split;
        [assumption|destruct Hin as [Hin|Hin]; simpl; auto| |].
      * eapply float_leb_trans; [|exact Hle]. now apply float_zero_leb.
      * intros v [<-|Hv]; auto.
    + destruct (IH x Hx Hl) as (Hr & Hin & Hle & Hall).
      repeat split;
        [assumption|destruct Hin as [Hin|Hin]; simpl; auto| |].
      * eapply float_leb_trans; [|exact Hle]. now apply float_ltb_leb.
      * intros v [<-|Hv]; auto.
    + destruct (IH acc Hacc Hl) as (Hr & Hin & Hle & Hall).
      repeat split;
        [assumption|destruct Hin as [Hin|Hin]; simpl; auto|assumption|].
      intros v [<-|Hv]; auto.
      eapply float_leb_trans; [|exact Hle]. now apply float_not_ltb.
Qed.

Lemma min_fold_from_nan (l : list float) :
  fold_left
    (fun lowest x =>
       if is_nan lowest || is_nan x then nan
       else if JS.is_neg_zero x && JS.is_pos_zero lowest then x
       else if (x <? lowest)%float then x
       else lowest) l nan = nan.
Proof. induction l as [|x l IH]; simpl; [reflexivity | exact IH]. Qed.

Lemma min_fold_nan (l : list float) (acc v : float) :
  In v l -> is_nan v = true ->
  fold_left
    (fun lowest x =>
       if is_nan lowest || is_nan x then nan
       else if JS.is_neg_zero x && JS.is_pos_zero lowest then x
       else if (x <? lowest)%float then x
       else lowest) l acc = nan.
Proof.
  intros Hv Hnan. revert acc.
  induction l as [|x l IH]; intros acc; [destruct Hv|]. simpl fold_left.
  destruct Hv as [->|Hv]; [|now apply IH].
  rewrite Hnan, orb_true_r. apply min_fold_from_nan.
Qed.

Lemma max_fold_from_nan (l : list float) :
  fold_left
    (fun highest x =>
       if is_nan highest || is_nan x then nan
       else if JS.is_pos_zero x && JS.is_neg_zero highest then x
       else if (highest <? x)%float then x
       else highest) l nan = nan.
Proof. induction l as [|x l IH]; simpl; [reflexivity | exact IH]. Qed.

Lemma max_fold_nan (l : list float) (acc v : float) :
  In v l -> is_nan v = true ->
  fold_left
    (fun highest x =>
       if is_nan highest || is_nan x then nan
       else if JS.is_pos_zero x && JS.is_neg_zero highest then x
       else if (highest <? x)%float then x
       else highest) l acc = nan.
Proof.
  intros Hv Hnan. revert acc.
  induction l as [|x l IH]; intros acc; [destruct Hv|]. simpl fold_left.
  destruct Hv as [->|Hv]; [|now apply IH].
  rewrite Hnan, orb_true_r. apply max_fold_from_nan.
Qed.

End MinMaxFacts.

Section MinMaxBounds.

(** [Math.min] and [Math.max] of a non-empty list without [NaN]. *)
Lemma Math_min_max_bounds (values : list float) :
  values <> [] ->
  Forall (fun v => is_nan v = false) values ->
  In (JS.Math_min values) values
  /\ In (JS.Math_max values) values
  /\ (forall v, In v values ->
        (JS.Math_min values <=? v) = true
        /\ (v <=? JS.Math_max values) = true).
Proof.
  intros Hne Hnan.
  destruct (min_fold values infinity eq_refl Hnan) as (_ & Hmin & _ & Hlow).
  destruct (max_fold values neg_infinity eq_refl Hnan) as (_ & Hmax & _ & Hup).
  fold (JS.Math_min values) in Hmin, Hlow.
  fold (JS.Math_max values) in Hmax, Hup.
  destruct values as [|v0 values]; [congruence|].
  repeat split; auto.
  - destruct Hmin as [Hmin|Hmin]; [|exact Hmin].
    left. rewrite Hmin. apply float_infinity_leb.
    rewrite <- Hmin. apply Hlow. now left.
  - destruct Hmax as [Hmax|Hmax]; [|exact Hmax].
    left. rewrite Hmax. apply float_leb_neg_infinity.
    rewrite <- Hmax. apply Hup. now left.
Qed.

End MinMaxBounds.

(** X5: on a non-empty series without [NaN] the minimum and the maximum are
    values of the series, and every value lies between them. *)
Theorem calculateMinMax_bounds (values : list float) :
  values <> [] ->
  Forall (fun v => is_nan v = false) values ->
  let mm := ResultsParser.calculateMinMax values in
  In (ResultsParser.min mm) values
  /\ In (ResultsParser.max mm) values
  /\ (forall v, In v values ->
        (ResultsParser.min mm <=? v) = true
        /\ (v <=? ResultsParser.max mm) = true).
Proof.
  intros Hne Hnan. cbn zeta. unfold ResultsParser.calculateMinMax.
  cbn [ResultsParser.min ResultsParser.max].
  now apply Math_min_max_bounds.
Qed.

Lemma calculateMinMax_bounds_witness :
  let values := [3.5; -0; 12; 0; -7.25] in
  values <> []
  /\ Forall (fun v => is_nan v = false) values
  /\ ResultsParser.calculateMinMax values
     = {| ResultsParser.min := -7.25; ResultsParser.max := 12 |}
  /\ In (ResultsParser.min (ResultsParser.calculateMinMax values)) values.
Proof.
  intros values.
  assert (Hne : values <> []) by discriminate.
  assert (Hnan : Forall (fun v => is_nan v = false) values)
    by (repeat constructor).
  split; [exact Hne|]. split; [exact Hnan|].
  split; [vm_compute; reflexivity|].
  apply (calculateMinMax_bounds values Hne Hnan).
Defined.

(** X6: a single [NaN] among the values makes the minimum, the maximum and
    the spread [NaN]. *)
Theorem calculateMinMax_nan (values : list float) (v : float) :
  In v values -> is_nan v = true ->
  ResultsParser.calculateMinMax values
  = {| ResultsParser.min := nan; ResultsParser.max := nan |}
  /\ ResultsParser.calculateSpread values = nan.
Proof.
  intros Hv Hnan.
  assert (Hmin : JS.Math_min values = nan)
    by (eapply min_fold_nan; eassumption).
  assert (Hmax : JS.Math_max values = nan)
    by (eapply max_fold_nan; eassumption).
  unfold ResultsParser.calculateSpread, ResultsParser.calculateMinMax.
  cbn [ResultsParser.min ResultsParser.max]. rewrite Hmin, Hmax.
  split; reflexivity.
Qed.

Lemma calculateMinMax_nan_witness :
  In nan [1; nan; 3] /\ is_nan nan = true
  /\ ResultsParser.calculateSpread [1; nan; 3] = nan.
Proof.
  assert (Hin : In nan [1; nan; 3]) by (right; left; reflexivity).
  assert (Hnan : is_nan nan = true) by reflexivity.
  split; [exact Hin|]. split; [exact Hnan|].
  apply (calculateMinMax_nan _ _ Hin Hnan).
Defined.

(** X7: on the empty series no function fails: the average, the median,
    the standard deviation, the mean absolute deviation and the coefficient
    of variation are [NaN], the percentiles are [undefined], the minimum is
    [Infinity], the maximum [-Infinity] and the spread [-Infinity]. *)
Theorem statistics_of_empty_series :
  ResultsParser.calculateAverage [] = nan
  /\ ResultsParser.calculateMedian [] = (Some nan, [])
  /\ ResultsParser.calculateStandardDeviation [] = nan
  /\ ResultsParser.calculatePercentile [] 95 = (None, [])
  /\ ResultsParser.calculatePercentile [] 99 = (None, [])
  /\ ResultsParser.calculateMinMax []
     = {| ResultsParser.min := infinity; ResultsParser.max := neg_infinity |}
  /\ ResultsParser.calculateSpread [] = neg_infinity
  /\ ResultsParser.calculateEmpiricalVariance [] = nan
  /\ ResultsParser.calculateVariationCoefficient [] = nan.
Proof. vm_compute. repeat split; reflexivity. Qed.

(** ** Dispersion measures are not negative *)

Section SignFacts.
Import FloatOrder.

Lemma sign_false_not_negative (x : float) :
  sign_false (Prim2SF x) -> not_negative x.
Proof.
  unfold not_negative. rewrite ltb_spec.
  replace (Prim2SF 0) with (S754_zero false) by reflexivity.
  destruct (Prim2SF x) as [s|s| |s m e]; try destruct s; simpl;
    auto; contradiction.
Qed.

Lemma binary_round_aux_sign (m e : Z) (l : location) :
  sign_false (binary_round_aux prec emax false m e l).
Proof.
  unfold binary_round_aux.
  destruct (shr_fexp prec emax m e l) as [mrs' e'].
  destruct (shr_fexp prec emax _ e' loc_Exact) as [mrs'' e''].
  destruct (shr_m mrs''); simpl; auto.
  destruct (e'' <=? emax - prec)%Z; simpl; auto.
Qed.

Lemma binary_round_sign (m : positive) (e : Z) :
  sign_false (binary_round prec emax false m e).
Proof.
  unfold binary_round. destruct (shl_align _ _ _) as [mz ez].
  apply binary_round_aux_sign.
Qed.

Lemma SFadd_sign (a b : spec_float) :
  sign_false a -> sign_false b -> sign_false (SF64add a b).
Proof.
  unfold SF64add, SFadd. intros Ha Hb.
  destruct a as [sa|sa| |sa ma ea], b as [sb|sb| |sb mb eb];
    simpl in Ha, Hb; subst; simpl; auto.
  apply binary_round_sign.
Qed.

Lemma SFdiv_sign (a b : spec_float) :
  sign_false a -> sign_false b -> sign_false (SF64div a b).
Proof.
  unfold SF64div, SFdiv. intros Ha Hb.
  destruct a as [sa|sa| |sa ma ea], b as [sb|sb| |sb mb eb];
    simpl in Ha, Hb; subst; simpl; auto.
  destruct (SFdiv_core_binary _ _ _ _ _ _) as [[mz ez] lz].
  apply binary_round_aux_sign.
Qed.

Lemma SFabs_sign (a : spec_float) : sign_false (SFabs a).
Proof. destruct a as [sa|sa| |sa ma ea]; simpl; auto. Qed.

Lemma SFsqrt_not_below_zero (a : spec_float) :
  SFltb (SF64sqrt a) (S754_zero false) = false.
Proof.
  unfold SF64sqrt, SFsqrt.
  destruct a as [sa|sa| |sa ma ea]; try destruct sa; try reflexivity.
  destruct (SFsqrt_core_binary _ _ _ _) as [[mz ez] lz].
  pose proof (binary_round_aux_sign mz ez lz) as H.
  destruct (binary_round_aux prec emax false mz ez lz) as [s|s| |s m e];
    try destruct s; simpl in *; auto; contradiction.
Qed.

Lemma length_number_sign {A} (l : list A) :
  sign_false (Prim2SF (JS.length_number l)).
Proof.
  unfold JS.length_number, JS.of_Z.
  destruct (Z.ltb_spec (Z.of_nat (length l)) 0) as [Hneg|_]; [lia|].
  rewrite of_uint63_spec. unfold binary_normalize.
  pose proof (Uint63.to_Z_bounded (Uint63.of_Z (Z.of_nat (length l)))) as Hb.
  destruct (Uint63.to_Z _) as [|p|p]; simpl; auto.
  - apply binary_round_sign.
  - lia.
Qed.

Lemma sum_sign (l : list float) (acc : float) :
  sign_false (Prim2SF acc) ->
  Forall (fun x => sign_false (Prim2SF x)) l ->
  sign_false (Prim2SF (fold_left (fun a b => a + b) l acc)).
Proof.
  revert acc. induction l as [|x l IH]; intros acc Hacc Hl; simpl; auto.
  apply Forall_cons in Hl as [Hx Hl]. apply IH; auto.
  rewrite add_spec. now apply SFadd_sign.
Qed.

Lemma calculateAverage_sign (l : list float) :
  Forall (fun x => sign_false (Prim2SF x)) l ->
  sign_false (Prim2SF (ResultsParser.calculateAverage l)).
Proof.
  intros Hl. unfold ResultsParser.calculateAverage. rewrite div_spec.
  apply SFdiv_sign; [|apply length_number_sign].
  apply sum_sign; [reflexivity | exact Hl].
Qed.

End SignFacts.

(** X8: whatever the values, neither the standard deviation nor the mean
    absolute deviation ([calculateEmpiricalVariance]) is below zero: each is
    [NaN], zero or positive. *)
Theorem dispersion_not_negative (values : list float) :
  FloatOrder.not_negative (ResultsParser.calculateStandardDeviation values)
  /\ FloatOrder.not_negative
       (ResultsParser.calculateEmpiricalVariance values).
Proof.
  split.
  - unfold FloatOrder.not_negative, ResultsParser.calculateStandardDeviation.
    rewrite ltb_spec, sqrt_spec. apply SFsqrt_not_below_zero.
  - apply sign_false_not_negative.
    unfold ResultsParser.calculateEmpiricalVariance.
    apply calculateAverage_sign.
    apply Forall_forall. intros d Hd.
    apply list_elem_of_In, in_map_iff in Hd as (v & <- & _).
    rewrite abs_spec. apply SFabs_sign.
Qed.

(** ** What every summary satisfies *)

Section SummaryFacts.
Import ResultsParser Series.

Lemma contribution_truthy (name : string) (entry : string * AuditResult)
    (v : float) :
  In v (contribution name entry) -> JS.ToBoolean (Some v) = true.
Proof.
  unfold contribution. destruct (numericValue entry.2) as [x|]; [|intros []].
  destruct (JS.ToBoolean (Some x)) eqn:Hx; simpl; [|intros []].
  destruct (String.eqb entry.1 name); [|intros []].
  intros [<-|[]]. exact Hx.
Qed.

Lemma of_runs_truthy (name : string) (results : list Result) (v : float) :
  In v (of_runs name results) -> JS.ToBoolean (Some v) = true.
Proof.
  unfold of_runs. rewrite in_flat_map. intros (r & _ & Hv).
  rewrite in_flat_map in Hv. destruct Hv as (e & _ & Hv).
  eapply contribution_truthy, Hv.
Qed.

Lemma truthy_not_nan (v : float) :
  JS.ToBoolean (Some v) = true -> is_nan v = false /\ is_zero v = false.
Proof.
  simpl. rewrite negb_true_iff. apply orb_false_elim.
Qed.

End SummaryFacts.

Section SummaryFields.
Import ResultsParser.

Lemma summarize_median (series : list float) :
  median (summarize series) = fst (calculateMedian series).
Proof.
  unfold summarize. now destruct (calculateMedian series).
Qed.

Lemma summarize_minMax (series : list float) :
  minMax (summarize series)
  = calculateMinMax (JS.sort JS.default_compare series).
Proof.
  unfold summarize.
  destruct (calculateMedian series) as [m sorted] eqn:Hm.
  pose proof (calculateMedian_array series) as Hs. rewrite Hm in Hs.
  simpl in Hs. subst sorted. unfold calculatePercentile.
  now rewrite !default_sort_idempotent.
Qed.

Lemma summarize_values_sorted (series : list float) :
  values (summarize series) = JS.sort JS.default_compare series.
Proof. rewrite summarize_values. now rewrite !default_sort_idempotent. Qed.

Lemma calculateMedian_is_number (values : list float) :
  values <> [] -> exists m, fst (calculateMedian values) = Some m.
Proof.
  intros Hne. unfold calculateMedian.
  destruct (Z.of_nat (length (JS.sort JS.default_compare values)) mod 2 =? 0)%Z;
    cbn [fst]; [eauto|].
  rewrite sort_length.
  replace (Z.of_nat (length values) / 2)%Z
    with (Z.of_nat (length values / 2)) by (now rewrite Nat2Z.inj_div).
  rewrite get_lookup. apply lookup_lt_is_Some_2.
  rewrite sort_length. apply Nat.div_lt; [|lia].
  destruct values; [congruence | simpl; lia].
Qed.

End SummaryFields.

(** X9: the summary of a metric (other than [__proto__], which a plain
    object cannot hold as a key) is computed from the values of that metric
    that pass the truthiness test, taken in run order; a metric without such
    a value has no summary, and the property [values] of a summary is that
    series sorted as strings. *)
Theorem parseResults_by_series (results : list ResultsParser.Result)
    (name : string) :
  name <> "__proto__" ->
  let series := Series.of_runs name results in
  (series = [] -> ResultsParser.parseResults results !! name = None)
  /\ (series <> [] ->
      ResultsParser.parseResults results !! name
      = Some (ResultsParser.summarize series))
  /\ ResultsParser.values (ResultsParser.summarize series)
     = JS.sort JS.default_compare series.
Proof.
  intros Hname. cbn zeta.
  rewrite parseResults_lookup by assumption.
  split; [intros ->; reflexivity|]. split.
  - destruct (Series.of_runs name results); [congruence | reflexivity].
  - rewrite summarize_values. now rewrite !default_sort_idempotent.
Qed.

Lemma parseResults_by_series_witness :
  let runs := [result_of [("a", Some 1); ("b", Some 2)];
               result_of [("b", Some 0); ("a", Some 30)];
               result_of [("a", Some 5); ("c", None)]] in
  "a" <> "__proto__"
  /\ Series.of_runs "a" runs = [1; 30; 5]
  /\ ResultsParser.parseResults runs !! "a"
     = Some (ResultsParser.summarize [1; 30; 5])
  /\ Series.of_runs "c" runs = []
  /\ ResultsParser.parseResults runs !! "c" = None.
Proof.
  intros runs.
  assert (Ha : "a" <> "__proto__") by discriminate.
  assert (Hc : "c" <> "__proto__") by discriminate.
  split; [exact Ha|].
  assert (Sa : Series.of_runs "a" runs = [1; 30; 5])
    by (vm_compute; reflexivity).
  assert (Sc : Series.of_runs "c" runs = []) by (vm_compute; reflexivity).
  split; [exact Sa|].
  destruct (parseResults_by_series runs "a" Ha) as (_ & Hsome & _).
  destruct (parseResults_by_series runs "c" Hc) as (Hnone & _).
  split; [rewrite <- Sa; apply Hsome; rewrite Sa; discriminate|].
  split; [exact Sc | apply Hnone, Sc].
Defined.

(** X10: in every summary that [parseResults] returns the series is not
    empty and holds neither a zero nor a [NaN]; the median is a number; the
    minimum and the maximum are values of the series and every value lies
    between them. *)
Theorem parseResults_summary_invariants (results : list ResultsParser.Result)
    (name : string) (summary : ResultsParser.Summary) :
  name <> "__proto__" ->
  ResultsParser.parseResults results !! name = Some summary ->
  let values := ResultsParser.values summary in
  let mm := ResultsParser.minMax summary in
  values <> []
  /\ Forall (fun v => is_nan v = false /\ is_zero v = false) values
  /\ (exists m, ResultsParser.median summary = Some m)
  /\ In (ResultsParser.min mm) values
  /\ In (ResultsParser.max mm) values
  /\ (forall v, In v values ->
        (ResultsParser.min mm <=? v) = true
        /\ (v <=? ResultsParser.max mm) = true).
Proof.
  intros Hname Hlookup. cbn zeta.
  rewrite parseResults_lookup in Hlookup by assumption.
  destruct (Series.of_runs name results) as [|x series] eqn:Hseries;
    [discriminate|].
  injection Hlookup as <-.
  rewrite summarize_minMax, summarize_values_sorted, summarize_median.
  set (sorted := JS.sort JS.default_compare (x :: series)).
  assert (Hperm : Permutation sorted (x :: series)) by apply sort_perm.
  assert (Htruthy : Forall (fun v => is_nan v = false /\ is_zero v = false)
                      sorted).
  { apply Forall_forall. intros v Hv. apply truthy_not_nan.
    apply (of_runs_truthy name results). rewrite Hseries.
    eapply Permutation_in; [exact Hperm|]. now apply list_elem_of_In. }
  assert (Hne : sorted <> []).
  { intros Heq. rewrite Heq in Hperm.
    apply Permutation_nil in Hperm. discriminate. }
  split; [exact Hne|]. split; [exact Htruthy|]. split.
  - apply calculateMedian_is_number. discriminate.
  - unfold ResultsParser.calculateMinMax.
    cbn [ResultsParser.min ResultsParser.max].
    apply Math_min_max_bounds; [exact Hne|].
    eapply Forall_impl; [exact Htruthy|]. now intros v [Hv _].
Qed.

Lemma parseResults_summary_invariants_witness :
  let runs := [result_of [("a", Some 1)]; result_of [("a", Some 30)];
               result_of [("a", Some 5)]] in
  exists summary,
    "a" <> "__proto__"
    /\ ResultsParser.parseResults runs !! "a" = Some summary
    /\ ResultsParser.values summary <> []
    /\ In (ResultsParser.min (ResultsParser.minMax summary))
         (ResultsParser.values summary).
Proof.
  intros runs.
  assert (Ha : "a" <> "__proto__") by discriminate.
  destruct (ResultsParser.parseResults runs !! "a") as [summary|] eqn:Hs;
    [|vm_compute in Hs; discriminate].
  exists summary.
  destruct (parseResults_summary_invariants runs "a" summary Ha Hs)
    as (Hne & _ & _ & Hmin & _).
  repeat split; assumption.
Defined.

(** * Further properties of the run loop *)

Section LoopFacts.
Import Index Progress Trace.

Lemma run_loop_needs (N : Z) (outcomes : list (option RunnerResult)) :
  forall st st' : LoopState,
    run_loop N outcomes st = Some st' ->
    (N - i st <= Z.of_nat (length (accepted outcomes)))%Z.
Proof.
  induction outcomes as [|o outcomes IH]; intros st st' Hrun.
  - simpl in Hrun. destruct (Z.ltb_spec (i st) N); [discriminate|].
    simpl. lia.
  - rewrite run_loop_cons in Hrun.
    destruct (Z.ltb_spec (i st) N) as [Hlt|Hge]; [|lia].
    destruct (rerun_cases o) as [Hr|(r & -> & Hr)].
    + rewrite iteration_rerun in Hrun by assumption.
      rewrite accepted_cons_rerun by assumption.
      apply IH in Hrun. simpl in Hrun. exact Hrun.
    + rewrite iteration_accept in Hrun by assumption.
      rewrite accepted_cons_accept by assumption.
      apply IH in Hrun. simpl in *. lia.
Qed.

Lemma writes_app (tr1 tr2 : list event) :
  writes (tr1 ++ tr2) = writes tr1 ++ writes tr2.
Proof. unfold writes. apply omap_app. Qed.

Lemma run_loop_writes (N : Z) (outcomes : list (option RunnerResult)) :
  forall st st' : LoopState,
    run_loop N outcomes st = Some st' ->
    (i st <= N)%Z ->
    writes (trace st')
    = writes (trace st)
      ++ imap (fun k r => ((i st + Z.of_nat k)%Z, report r))
           (take (Z.to_nat (N - i st)) (accepted outcomes)).
Proof.
  induction outcomes as [|o outcomes IH]; intros st st' Hrun Hi.
  - simpl in Hrun. destruct (Z.ltb_spec (i st) N); [discriminate|].
    injection Hrun as <-. change (accepted []) with (@nil RunnerResult).
    rewrite take_nil. simpl. now rewrite app_nil_r.
  - rewrite run_loop_cons in Hrun.
    destruct (Z.ltb_spec (i st) N) as [Hlt|Hge].
    + destruct (rerun_cases o) as [Hr|(r & -> & Hr)].
      * rewrite iteration_rerun in Hrun by assumption.
        rewrite accepted_cons_rerun by assumption.
        rewrite (IH _ _ Hrun) by (simpl; lia). simpl.
        rewrite writes_app. simpl. now rewrite app_nil_r.
      * rewrite iteration_accept in Hrun by assumption.
        rewrite accepted_cons_accept by assumption.
        rewrite (IH _ _ Hrun) by (simpl; lia). simpl.
        rewrite !writes_app. simpl. rewrite app_nil_r, <- app_assoc. simpl.
        replace (Z.to_nat (N - i st)) with (S (Z.to_nat (N - (i st + 1))))
          by lia.
        simpl. rewrite Z.add_0_r. do 2 f_equal.
        apply imap_ext. intros k r' _. simpl. f_equal. lia.
    + injection Hrun as <-.
      replace (Z.to_nat (N - i st)) with 0%nat by lia.
      simpl. now rewrite app_nil_r.
Qed.

Lemma imap_index_fst {A} (f : A -> string) (l : list A) (start : nat) :
  map fst (imap (fun k r => (Z.of_nat (start + k), f r)) l)
  = map Z.of_nat (seq start (length l)).
Proof.
  revert start. induction l as [|x l IH]; intros start; simpl; [reflexivity|].
  rewrite Nat.add_0_r. f_equal. rewrite <- IH. f_equal.
  apply imap_ext. intros k r _. simpl. do 2 f_equal. lia.
Qed.

Lemma increments_app (tr1 tr2 : list event) :
  increments (tr1 ++ tr2) = (increments tr1 + increments tr2)%nat.
Proof. unfold increments. now rewrite filter_app, length_app. Qed.

Lemma audits_app (tr1 tr2 : list event) :
  audits (tr1 ++ tr2) = (audits tr1 + audits tr2)%nat.
Proof. unfold audits. now rewrite filter_app, length_app. Qed.

Lemma run_loop_attempts (N : Z) (outcomes : list (option RunnerResult)) :
  forall st st' : LoopState,
    run_loop N outcomes st = Some st' ->
    (i st <= N)%Z ->
    exists c : nat,
      (c <= length outcomes)%nat
      /\ increments (trace st') = (increments (trace st) + c)%nat
      /\ audits (trace st') = (audits (trace st) + c)%nat
      /\ Z.of_nat c = (N - i st + Z.of_nat (failures (take c outcomes)))%Z
      /\ run_loop N (take c outcomes) st = Some st'.
Proof.
  induction outcomes as [|o outcomes IH]; intros st st' Hrun Hi.
  - simpl in Hrun. destruct (Z.ltb_spec (i st) N) as [|Hge]; [discriminate|].
    injection Hrun as <-. exists 0%nat. rewrite take_0.
    change (failures []) with 0%nat. repeat split; try lia.
    simpl. destruct (Z.ltb_spec (i st) N); [lia | reflexivity].
  - rewrite run_loop_cons in Hrun.
    destruct (Z.ltb_spec (i st) N) as [Hlt|Hge].
    + destruct (rerun_cases o) as [Hr|(r & -> & Hr)].
      * rewrite iteration_rerun in Hrun by assumption.
        destruct (IH _ _ Hrun) as (c & Hc & Hinc & Haud & Hcount & Htake);
          [simpl; lia|].
        simpl in Hinc, Haud, Hcount.
        rewrite increments_app in Hinc. rewrite audits_app in Haud.
        exists (S c).
        change (take (S c) (o :: outcomes)) with (o :: take c outcomes).
        cbn [length]. repeat split; try lia.
        -- change (increments [RunBarIncrement; Lighthouse]) with 1%nat in Hinc.
           lia.
        -- change (audits [RunBarIncrement; Lighthouse]) with 1%nat in Haud.
           lia.
        -- unfold failures in *.
           rewrite filter_cons_True by assumption. simpl. lia.
        -- rewrite run_loop_cons.
           destruct (Z.ltb_spec (i st) N); [|lia].
           now rewrite iteration_rerun by assumption.
      * rewrite iteration_accept in Hrun by assumption.
        destruct (IH _ _ Hrun) as (c & Hc & Hinc & Haud & Hcount & Htake);
          [simpl; lia|].
        simpl in Hinc, Haud, Hcount.
        rewrite !increments_app in Hinc. rewrite !audits_app in Haud.
        exists (S c).
        change (take (S c) (Some r :: outcomes))
          with (Some r :: take c outcomes).
        cbn [length]. repeat split; try lia.
        -- change (increments [RunBarIncrement; Lighthouse]) with 1%nat in Hinc.
           change (increments [WriteFile (i st) (report r)]) with 0%nat in Hinc.
           lia.
        -- change (audits [RunBarIncrement; Lighthouse]) with 1%nat in Haud.
           change (audits [WriteFile (i st) (report r)]) with 0%nat in Haud.
           lia.
        -- unfold failures in *.
           rewrite filter_cons_False by (rewrite Hr; discriminate). lia.
        -- rewrite run_loop_cons.
           destruct (Z.ltb_spec (i st) N); [|lia].
           now rewrite iteration_accept by assumption.
    + injection Hrun as <-. exists 0%nat. rewrite take_0.
      change (failures []) with 0%nat. repeat split; try (simpl; lia).
      simpl. destruct (Z.ltb_spec (i st) N); [lia | reflexivity].
Qed.

End LoopFacts.

(** X11: the loop returns exactly when the outcomes it is given hold at
    least [N] successful audits. With fewer it keeps asking for another
    audit: failed attempts are retried without bound. *)
Theorem run_loop_returns_iff (N : Z)
    (outcomes : list (option Index.RunnerResult)) :
  is_Some (Index.run_loop N outcomes Index.initial)
  <-> (N <= Z.of_nat (length (Index.accepted outcomes)))%Z.
Proof.
  split.
  - intros [st Hrun]. apply run_loop_needs in Hrun. simpl in Hrun. lia.
  - intros Hlen. destruct (Z.le_gt_cases 0 N) as [HN|HN].
    + destruct (run_loop_accepts N outcomes Index.initial)
        as (st & Hrun & _); simpl; try lia. eauto.
    + destruct outcomes; simpl; destruct (Z.ltb_spec 0 N); try lia; eauto.
Qed.

(** X12: the reports written are those of the accepted runs, in acceptance
    order, under the consecutive indices 0, 1, ..., N - 1: no index is
    written twice, and an attempt that is retried writes nothing. *)
Theorem run_loop_writes_reports (N : Z)
    (outcomes : list (option Index.RunnerResult)) (st : Index.LoopState) :
  (0 <= N)%Z ->
  Index.run_loop N outcomes Index.initial = Some st ->
  Trace.writes (Index.trace st)
  = imap (fun k r => (Z.of_nat k, Index.report r))
      (take (Z.to_nat N) (Index.accepted outcomes))
  /\ map fst (Trace.writes (Index.trace st))
     = map Z.of_nat (seq 0 (Z.to_nat N)).
Proof.
  intros HN Hrun.
  pose proof (run_loop_needs N outcomes _ _ Hrun) as Hlen. simpl in Hlen.
  rewrite (run_loop_writes N outcomes _ _ Hrun) by (simpl; lia).
  simpl. rewrite Z.sub_0_r.
  assert (Htake : length (take (Z.to_nat N) (Index.accepted outcomes))
                  = Z.to_nat N) by (rewrite length_take; lia).
  split; [reflexivity|].
  rewrite <- Htake at 2.
  apply (imap_index_fst Index.report _ 0).
Qed.

Lemma run_loop_writes_reports_witness :
  let outcomes := [Some (ok_run "first" []); Some failed_run; None;
                   Some (ok_run "second" [])] in
  exists st,
    (0 <= 2)%Z
    /\ Index.run_loop 2 outcomes Index.initial = Some st
    /\ Trace.writes (Index.trace st) = [(0%Z, "first"); (1%Z, "second")].
Proof.
  intros outcomes.
  destruct (Index.run_loop 2 outcomes Index.initial) as [st|] eqn:Hrun;
    [|vm_compute in Hrun; discriminate].
  exists st.
  assert (H0 : (0 <= 2)%Z) by lia.
  destruct (run_loop_writes_reports 2 outcomes st H0 Hrun) as [Hw _].
  split; [exact H0|]. split; [reflexivity|].
  rewrite Hw. vm_compute. reflexivity.
Defined.

(** X13: when the loop returns it has invoked some number [c] of audits,
    the first [c] of the outcomes, and nothing of the later ones matters;
    the progress bar has been incremented [c] times; and [c] is [N] plus the
    number of attempts among those [c] that were retried. *)
Theorem run_loop_attempt_count (N : Z)
    (outcomes : list (option Index.RunnerResult)) (st : Index.LoopState) :
  (0 <= N)%Z ->
  Index.run_loop N outcomes Index.initial = Some st ->
  exists c : nat,
    (c <= length outcomes)%nat
    /\ Trace.audits (Index.trace st) = c
    /\ Progress.increments (Index.trace st) = c
    /\ Z.of_nat c = (N + Z.of_nat (Trace.failures (take c outcomes)))%Z
    /\ Index.run_loop N (take c outcomes) Index.initial = Some st.
Proof.
  intros HN Hrun.
  destruct (run_loop_attempts N outcomes _ _ Hrun)
    as (c & Hc & Hinc & Haud & Hcount & Htake); [simpl; lia|].
  exists c. simpl in *. repeat split; auto. lia.
Qed.

Lemma run_loop_attempt_count_witness :
  let outcomes := [Some failed_run; None; Some (ok_run "first" []);
                   Some (ok_run "unused" [])] in
  exists st,
    (0 <= 1)%Z
    /\ Index.run_loop 1 outcomes Index.initial = Some st
    /\ Progress.increments (Index.trace st) = 3%nat
    /\ Trace.audits (Index.trace st) = 3%nat.
Proof.
  intros outcomes.
  destruct (Index.run_loop 1 outcomes Index.initial) as [st|] eqn:Hrun;
    [|vm_compute in Hrun; discriminate].
  exists st.
  assert (H0 : (0 <= 1)%Z) by lia.
  destruct (run_loop_attempt_count 1 outcomes st H0 Hrun)
    as (c & _ & Haud & Hinc & _).
  split; [exact H0|]. split; [reflexivity|].
  injection Hrun as <-. split; vm_compute; reflexivity.
Defined.

(** * Further properties of the CSV rows *)

Section TextFacts.
Import Text.

Lemma commas_append (s1 s2 : string) :
  commas (s1 +:+ s2) = (commas s1 + commas s2)%nat.
Proof.
  induction s1 as [|c s1 IH]; simpl; [reflexivity|]. rewrite IH. lia.
Qed.

Lemma commas_substring (n m : nat) (s : string) :
  commas s = 0%nat -> commas (String.substring n m s) = 0%nat.
Proof.
  revert n m. induction s as [|c s IH]; intros [|n] [|m]; simpl; auto;
    destruct (Ascii.eqb c ","); simpl; try discriminate; auto.
Qed.

Lemma commas_zeros (n : nat) : commas (JS.zeros n) = 0%nat.
Proof. induction n; simpl; auto. Qed.

Lemma commas_string_of_Z (z : Z) : commas (JS.string_of_Z z) = 0%nat.
Proof.
  unfold JS.string_of_Z, NilZero.string_of_uint.
  assert (H : forall d, commas (NilEmpty.string_of_uint d) = 0%nat)
    by (induction d; simpl; auto).
  destruct (N.to_uint (Z.to_N z)); auto; apply H.
Qed.

Lemma commas_format_digits (digits : string) (n : Z) :
  commas digits = 0%nat -> commas (JS.format_digits digits n) = 0%nat.
Proof.
  intros Hd. unfold JS.format_digits.
  repeat match goal with
         | |- context [if ?b then _ else _] => destruct b
         end;
    rewrite ?commas_append, ?commas_substring, ?commas_zeros,
      ?commas_string_of_Z, ?Hd by assumption; reflexivity.
Qed.

Lemma commas_toString_finite (m : positive) (e : Z) :
  commas (JS.toString_finite m e) = 0%nat.
Proof.
  unfold JS.toString_finite.
  destruct (JS.shortest _ _ _ _) as [[s q]|]; [|reflexivity].
  apply commas_format_digits, commas_string_of_Z.
Qed.

(** The decimal string of a number holds no comma. *)
Lemma commas_Number_toString (x : float) :
  commas (JS.Number_toString x) = 0%nat.
Proof.
  unfold JS.Number_toString.
  destruct (Prim2SF x) as [s|s| |s m e]; try destruct s; try reflexivity.
  - rewrite commas_append, commas_toString_finite. reflexivity.
  - apply commas_toString_finite.
Qed.

Lemma commas_concat (l : list string) :
  Forall (fun s => commas s = 0%nat) l ->
  commas (String.concat "," l) = (length l - 1)%nat.
Proof.
  induction 1 as [|s l Hs Hl IH]; [reflexivity|].
  destruct l as [|s' l]; [simpl; exact Hs|].
  change (String.concat "," (s :: s' :: l))
    with (s +:+ "," +:+ String.concat "," (s' :: l)).
  rewrite !commas_append, IH, Hs. simpl. lia.
Qed.

End TextFacts.

Section RowFacts.
Import ResultsParser Text.

Lemma numericAudits_length (localeCompare : string -> string -> Z)
    (entries : list (string * AuditResult)) :
  length
    (filter (fun entry => bool_decide (numericValue entry.2 <> None))
       (JS.sort (fun a b => localeCompare a.1 b.1) entries))
  = length
      (filter (fun entry => bool_decide (numericValue entry.2 <> None)) entries).
Proof. apply Permutation_length. now rewrite sort_perm. Qed.

End RowFacts.

(** X14: a value line never needs quoting. Whatever the comparison of
    names, the value line of a result holds one comma less than the result
    has audits with a defined numeric value, and so does the header when
    no metric name holds a comma: both lines have the same number of
    fields. *)
Theorem resultToCsv_fields (localeCompare : string -> string -> Z)
    (result : ResultsParser.Result) :
  let columns :=
    length (filter
              (fun entry =>
                 bool_decide (ResultsParser.numericValue entry.2 <> None))
              (ResultsParser.audits result)) in
  let csv := ResultsParser.resultToCsv localeCompare result in
  Text.commas (ResultsParser.values_line csv) = (columns - 1)%nat
  /\ (Forall (fun entry => Text.commas entry.1 = 0%nat)
        (ResultsParser.audits result) ->
      Text.commas (ResultsParser.header csv) = (columns - 1)%nat).
Proof.
  cbn zeta. unfold ResultsParser.resultToCsv, JS.join.
  cbn [ResultsParser.values_line ResultsParser.header].
  rewrite <- (numericAudits_length localeCompare).
  set (numericAudits := filter _ (JS.sort _ _)).
  split.
  - rewrite commas_concat, !length_map; [reflexivity|].
    apply Forall_forall. intros s Hs.
    apply list_elem_of_In, in_map_iff in Hs as ([x|] & <- & _);
      [apply commas_Number_toString | reflexivity].
  - intros Hnames. rewrite commas_concat, length_map; [reflexivity|].
    apply Forall_forall. intros s Hs.
    apply list_elem_of_In, in_map_iff in Hs as (entry & <- & Hin).
    rewrite Forall_forall in Hnames. apply Hnames.
    apply list_elem_of_In in Hin. unfold numericAudits in Hin.
    apply list_elem_of_filter in Hin as [_ Hin].
    apply list_elem_of_In. apply list_elem_of_In in Hin.
    eapply Permutation_in; [apply sort_perm | exact Hin].
Qed.

Lemma resultToCsv_fields_witness :
  let result := result_of [("tti", Some 1234.5); ("cls", Some 0);
                           ("screenshot", None); ("fcp", Some 810)] in
  Forall (fun entry => Text.commas entry.1 = 0%nat)
    (ResultsParser.audits result)
  /\ Text.commas
       (ResultsParser.header
          (ResultsParser.resultToCsv JS.code_unit_compare result)) = 2%nat
  /\ Text.commas
       (ResultsParser.values_line
          (ResultsParser.resultToCsv JS.code_unit_compare result)) = 2%nat.
Proof.
  intros result.
  assert (Hnames : Forall (fun entry => Text.commas entry.1 = 0%nat)
                     (ResultsParser.audits result))
    by (repeat constructor).
  split; [exact Hnames|].
  destruct (resultToCsv_fields JS.code_unit_compare result) as [Hv Hh].
  split; [rewrite (Hh Hnames) | rewrite Hv]; vm_compute; reflexivity.
Defined.

Section HeaderFacts.
Import ResultsParser Columns.

Lemma reports_spec (name : string) (result : Result) :
  Series.reports name result = true
  <-> exists v, In (name, {| numericValue := Some v |}) (audits result).
Proof.
  unfold Series.reports. rewrite existsb_exists. split.
  - intros ([k [[v|]]] & Hin & H); simpl in H.
    + apply andb_prop in H as [Hk _]. apply String.eqb_eq in Hk. subst.
      eauto.
    + apply andb_prop in H as [_ H]. discriminate H.
  - intros (v & Hin). eexists. split; [exact Hin|]. simpl.
    rewrite String.eqb_refl. reflexivity.
Qed.

Lemma of_entries_names (entries : list (string * AuditResult)) (name : string) :
  In name (map fst (of_entries entries))
  <-> exists v, In (name, {| numericValue := Some v |}) entries.
Proof.
  rewrite in_map_iff. split.
  - intros ([k v] & <- & Hin). exists v. now apply of_entries_In.
  - intros (v & Hin). exists (name, v). split; [reflexivity|].
    now apply of_entries_In.
Qed.

Lemma header_names (localeCompare : string -> string -> Z) (result : Result) :
  header (resultToCsv localeCompare result)
  = String.concat ","
      (map fst (of_entries (JS.sort (fun a b => localeCompare a.1 b.1)
                              (audits result)))).
Proof. unfold resultToCsv. simpl. now rewrite of_entries_keys. Qed.

Lemma append_nil_r (s : string) : s +:+ EmptyString = s.
Proof.
  induction s as [|c s IH]; [reflexivity|].
  change (String c (s +:+ EmptyString) = String c s). now f_equal.
Qed.

Lemma append_assoc (a b c : string) : (a +:+ b) +:+ c = a +:+ (b +:+ c).
Proof.
  induction a as [|x a IH]; [reflexivity|].
  change (String x ((a +:+ b) +:+ c) = String x (a +:+ (b +:+ c))).
  now f_equal.
Qed.

Lemma concat_empty_cons (s : string) (l : list string) :
  String.concat EmptyString (s :: l) = s +:+ String.concat EmptyString l.
Proof.
  destruct l; [cbn [String.concat]; symmetry; apply append_nil_r|reflexivity].
Qed.

Lemma imap_map {A B} (f : nat -> A -> B) (g : A -> B) (l : list A) :
  (forall k x, f k x = g x) -> imap f l = map g l.
Proof.
  revert f. induction l as [|x l IH]; intros f Hf; [reflexivity|].
  rewrite imap_cons. simpl. rewrite Hf. f_equal.
  apply IH. intros k y. apply Hf.
Qed.

End HeaderFacts.

Section HeaderByMetrics.
Import Collation.

Lemma header_by_metrics (localeCompare : string -> string -> Z)
    (result1 result2 : ResultsParser.Result) :
  total_order_on localeCompare
    (map fst (ResultsParser.audits result1)
     ++ map fst (ResultsParser.audits result2)) ->
  NoDup (map fst (ResultsParser.audits result1)) ->
  NoDup (map fst (ResultsParser.audits result2)) ->
  (forall name,
      Series.reports name result1 = Series.reports name result2) ->
  ResultsParser.header (ResultsParser.resultToCsv localeCompare result1)
  = ResultsParser.header (ResultsParser.resultToCsv localeCompare result2).
Proof.
  intros Horder Hnd1 Hnd2 Hsame. rewrite !header_names. f_equal.
  set (names := map fst (ResultsParser.audits result1)
                ++ map fst (ResultsParser.audits result2)) in *.
  assert (Hin1 : forall name,
             In name (map fst (ResultsParser.audits result1)) ->
             In name names) by (intros; apply in_or_app; now left).
  assert (Hin2 : forall name,
             In name (map fst (ResultsParser.audits result2)) ->
             In name names) by (intros; apply in_or_app; now right).
  assert (Hsort : forall result,
             Permutation
               (JS.sort (fun a b => localeCompare a.1 b.1)
                  (ResultsParser.audits result))
               (ResultsParser.audits result)) by (intros; apply sort_perm).
  assert (Hkeys : forall result name,
             In name
               (map fst (Columns.of_entries
                           (JS.sort (fun a b => localeCompare a.1 b.1)
                              (ResultsParser.audits result)))) ->
             In name (map fst (ResultsParser.audits result))).
  { intros result name Hname. apply of_entries_keys_In in Hname.
    eapply Permutation_in; [|exact Hname]. apply Permutation_map, Hsort. }
  assert (Hnodup : forall result,
             NoDup (map fst (ResultsParser.audits result)) ->
             NoDup (map fst (Columns.of_entries
                               (JS.sort (fun a b => localeCompare a.1 b.1)
                                  (ResultsParser.audits result))))).
  { intros result Hnd. apply of_entries_NoDup.
    rewrite (Permutation_map fst (Hsort result)). exact Hnd. }
  assert (Hreports : forall result name,
             In name
               (map fst (Columns.of_entries
                           (JS.sort (fun a b => localeCompare a.1 b.1)
                              (ResultsParser.audits result))))
             <-> Series.reports name result = true).
  { intros result name. rewrite of_entries_names, reports_spec.
    split; intros (v & Hv); exists v;
      (eapply Permutation_in; [|exact Hv]);
      [apply Hsort | symmetry; apply Hsort]. }
  apply (StronglySorted_unique_strong
           (fun a b => (localeCompare a b <= 0)%Z)).
  - intros x y Hx Hy Hxy Hyx.
    destruct Horder as (_ & _ & Hanti).
    apply Hanti; auto.
    + apply Hin1, Hkeys. now apply list_elem_of_In.
    + apply Hin2, Hkeys. now apply list_elem_of_In.
  - apply (columns_sorted_on localeCompare names Horder). exact Hin1.
  - apply (columns_sorted_on localeCompare names Horder). exact Hin2.
  - apply NoDup_Permutation;
      [apply NoDup_ListNoDup, Hnodup, Hnd1
      |apply NoDup_ListNoDup, Hnodup, Hnd2|].
    intros name. rewrite !Hreports. now rewrite Hsame.
Qed.

End HeaderByMetrics.

(** X15: the header of a row depends only on which metrics have a defined
    numeric value. Where [localeCompare] is a total order on the metric
    names of two results, and they report the same metrics, whatever the
    values and the order of their audits, they get the same header. *)
Theorem resultToCsv_header_by_metrics (localeCompare : string -> string -> Z)
    (result1 result2 : ResultsParser.Result) :
  Collation.total_order_on localeCompare
    (map fst (ResultsParser.audits result1)
     ++ map fst (ResultsParser.audits result2)) ->
  NoDup (map fst (ResultsParser.audits result1)) ->
  NoDup (map fst (ResultsParser.audits result2)) ->
  (forall name,
      Series.reports name result1 = Series.reports name result2) ->
  ResultsParser.header (ResultsParser.resultToCsv localeCompare result1)
  = ResultsParser.header (ResultsParser.resultToCsv localeCompare result2).
Proof. apply header_by_metrics. Qed.

Lemma resultToCsv_header_by_metrics_witness :
  let result1 := result_of [("TTI", Some 1200); ("fcp", Some 800);
                            ("screenshot", None)] in
  let result2 := result_of [("fcp", Some 0); ("TTI", Some 950.5)] in
  Collation.total_order_on Collation.letters_compare
    (map fst (ResultsParser.audits result1)
     ++ map fst (ResultsParser.audits result2))
  /\ ResultsParser.header
       (ResultsParser.resultToCsv Collation.letters_compare result1)
     = ResultsParser.header
         (ResultsParser.resultToCsv Collation.letters_compare result2)
  /\ ResultsParser.header
       (ResultsParser.resultToCsv Collation.letters_compare result2)
     = "fcp,TTI".
Proof.
  intros result1 result2.
  assert (Horder : Collation.total_order_on Collation.letters_compare
                     (map fst (ResultsParser.audits result1)
                      ++ map fst (ResultsParser.audits result2))).
  { apply total_order_check_sound. vm_compute. reflexivity. }
  split; [exact Horder|]. split; [|vm_compute; reflexivity].
  apply resultToCsv_header_by_metrics.
  - exact Horder.
  - apply (bool_decide_unpack _). vm_compute. exact I.
  - apply (bool_decide_unpack _). vm_compute. exact I.
  - intros name. apply Bool.eq_iff_eq_true. rewrite !reports_spec.
    split; intros (v & H); simpl in H;
      repeat (destruct H as [H|H];
              [try discriminate H; injection H as <- <-;
               eexists; simpl; eauto 10|]);
      contradiction.
Defined.

(** X16: the CSV report of a combination. Without results no file is
    written. Otherwise the file is the header of the first result followed
    by one value line per result, in order. Where [localeCompare] is a
    total order on the metric names of the results and every later result
    reports the same metrics as the first, each value line has the columns
    of that header. *)
Theorem report_csv_aligned (localeCompare : string -> string -> Z)
    (first : ResultsParser.Result) (rest : list ResultsParser.Result) :
  Report.report_csv localeCompare [] = None
  /\ Report.report_csv localeCompare (first :: rest)
     = Some
         (ResultsParser.header (ResultsParser.resultToCsv localeCompare first)
          +:+ Text.newline
          +:+ String.concat EmptyString
                (map (fun result =>
                        ResultsParser.values_line
                          (ResultsParser.resultToCsv localeCompare result)
                        +:+ Text.newline)
                   (first :: rest)))
  /\ (Collation.total_order_on localeCompare
        (flat_map (fun result => map fst (ResultsParser.audits result))
           (first :: rest)) ->
      (forall result, In result (first :: rest) ->
         NoDup (map fst (ResultsParser.audits result))) ->
      (forall result name, In result rest ->
         Series.reports name result = Series.reports name first) ->
      forall result, In result rest ->
        ResultsParser.header (ResultsParser.resultToCsv localeCompare result)
        = ResultsParser.header
            (ResultsParser.resultToCsv localeCompare first)).
Proof.
  split; [reflexivity|]. split.
  - unfold Report.report_csv, Report.appends.
    rewrite imap_cons.
    rewrite (imap_map _
               (fun result =>
                  ResultsParser.values_line
                    (ResultsParser.resultToCsv localeCompare result)
                  +:+ Text.newline)) by reflexivity.
    cbn [Report.contents Nat.eqb map]. f_equal.
    rewrite !concat_empty_cons, !append_assoc. reflexivity.
  - intros Horder Hnd Hsame result Hin.
    apply header_by_metrics; auto.
    + apply (total_order_on_incl localeCompare
               (flat_map (fun result => map fst (ResultsParser.audits result))
                  (first :: rest))); [|exact Horder].
      intros name Hname. apply in_flat_map.
      apply in_app_or in Hname as [Hname|Hname].
      * exists result. split; [now right | exact Hname].
      * exists first. split; [now left | exact Hname].
    + apply Hnd. now right.
    + apply Hnd. now left.
Qed.

Lemma report_csv_aligned_witness :
  let first := result_of [("TTI", Some 1200); ("fcp", Some 800)] in
  let rest := [result_of [("fcp", Some 790); ("TTI", Some 1100.5)]] in
  Report.report_csv Collation.letters_compare (first :: rest)
  = Some ("fcp,TTI" +:+ Text.newline +:+ "800,1200" +:+ Text.newline
          +:+ "790,1100.5" +:+ Text.newline)
  /\ Collation.total_order_on Collation.letters_compare
       (flat_map (fun result => map fst (ResultsParser.audits result))
          (first :: rest))
  /\ forall result, In result rest ->
       ResultsParser.header
         (ResultsParser.resultToCsv Collation.letters_compare result)
       = ResultsParser.header
           (ResultsParser.resultToCsv Collation.letters_compare first).
Proof.
  intros first rest. split; [vm_compute; reflexivity|].
  assert (Horder : Collation.total_order_on Collation.letters_compare
                     (flat_map
                        (fun result => map fst (ResultsParser.audits result))
                        (first :: rest))).
  { apply total_order_check_sound. vm_compute. reflexivity. }
  split; [exact Horder|].
  destruct (report_csv_aligned Collation.letters_compare first rest)
    as (_ & _ & Haligned).
  apply Haligned.
  - exact Horder.
  - intros result [<-|[<-|[]]]; apply (bool_decide_unpack _);
      vm_compute; exact I.
  - intros result name [<-|[]].
    apply Bool.eq_iff_eq_true. rewrite !reports_spec.
    split; intros (v & H); simpl in H;
      repeat (destruct H as [H|H];
              [try discriminate H; injection H as <- <-;
               eexists; simpl; eauto 10|]);
      contradiction.
Defined.

(** * [toCsv] *)

Section TableFacts.
Import ResultsParser Text Table.

Lemma commas_concat_cons (s : string) (l : list string) :
  commas (String.concat "," (s :: l))
  = (commas s + match l with
                | [] => 0
                | _ => 1 + commas (String.concat "," l)
                end)%nat.
Proof.
  destruct l as [|s' l]; [simpl; lia|].
  change (String.concat "," (s :: s' :: l))
    with (s +:+ "," +:+ String.concat "," (s' :: l)).
  rewrite !commas_append. reflexivity.
Qed.

Lemma commas_cell (v : option float) : commas (cell v) = 0%nat.
Proof. destruct v; [apply commas_Number_toString | reflexivity]. Qed.

Lemma commas_join (l : list (option float)) :
  commas (JS.join "," l) = (length l - 1)%nat.
Proof.
  unfold JS.join. rewrite commas_concat, length_map; [reflexivity|].
  apply Forall_forall. intros s Hs.
  apply list_elem_of_In, in_map_iff in Hs as (v & <- & _).
  apply (commas_cell v).
Qed.

End TableFacts.

(** X17: [toCsv] returns the empty string for a missing argument and for
    an object without properties. Each row it writes for a summary has
    nine commas plus those that separate the values of the series, however
    many metrics the header names: with [k] values in the series the row
    has [9 + k] fields ([k >= 1]), the sixth being the text
    [[object Object]], while the header has one field per metric. *)
Theorem toCsv_rows (entries : list (string * ResultsParser.Summary)) :
  Table.toCsv None = EmptyString
  /\ Table.toCsv (Some []) = EmptyString
  /\ Table.toCsv (Some entries)
     = String.concat Text.newline
         (String.concat "," (map fst entries)
          :: map (fun entry => String.concat "," (Table.cells entry.2)) entries)
  /\ (forall summary,
        Text.commas (String.concat "," (Table.cells summary))
        = (9 + (length (ResultsParser.values summary) - 1))%nat
        /\ Table.cells summary !! 5%nat = Some "[object Object]")
  /\ (Forall (fun entry => Text.commas entry.1 = 0%nat) entries ->
      Text.commas (String.concat "," (map fst entries))
      = (length entries - 1)%nat).
Proof.
  split; [reflexivity|]. split; [reflexivity|]. split; [reflexivity|].
  split.
  - intros summary. split; [|reflexivity].
    unfold Table.cells. rewrite !commas_concat_cons, !commas_cell.
    rewrite commas_join, length_map.
    change (Text.commas Table.object_Object) with 0%nat. lia.
  - intros Hnames. rewrite commas_concat, length_map; [reflexivity|].
    apply Forall_forall. intros s Hs.
    apply list_elem_of_In, in_map_iff in Hs as (entry & <- & Hin).
    rewrite Forall_forall in Hnames. apply Hnames.
    now apply list_elem_of_In.
Qed.

Lemma toCsv_rows_witness :
  let entries := [("fcp", ResultsParser.summarize [800; 790])] in
  Forall (fun entry => Text.commas entry.1 = 0%nat) entries
  /\ Text.commas (String.concat "," (map fst entries)) = 0%nat
  /\ Table.toCsv (Some entries)
     = "fcp" +:+ Text.newline
       +:+ "795,795,5,,,[object Object],10,5,0.628930817610063,790,800".
Proof.
  intros entries.
  assert (Hnames : Forall (fun entry => Text.commas entry.1 = 0%nat) entries)
    by (repeat constructor).
  split; [exact Hnames|].
  destruct (toCsv_rows entries) as (_ & _ & _ & _ & Hheader).
  split; [rewrite (Hheader Hnames); reflexivity|].
  vm_compute. reflexivity.
Defined.
